(** * The chat client's streaming hook and history client

    A shallow embedding of [src/hooks/useWsStream.ts] (the WebSocket event
    interpreter, the typing effect and [sendMessage]) and of
    [src/lib/apiClient.ts] (the fetch wrapper of the history server),
    together with the properties of the timeline they maintain.

    React state ([useState]) and refs ([useRef]) of the hook are the fields
    of one record; every handler is a computation in a small state monad
    over it.  [Date.now()] and [Math.random()] are the only external
    values the handlers read: they are oracles indexed by the number of
    reads made so far, so that two reads in one handler may differ. *)

From Stdlib Require Import ZArith Ascii String.
From stdpp Require Import base option list strings gmap pretty.

Local Open Scope string_scope.
Local Open Scope list_scope.
Local Open Scope nat_scope.

(** ** JavaScript values *)

(** Truthiness of an optional boolean field ([msg.isWaiting], ...):
    [undefined] and [false] are falsy. *)
Definition truthy (o : option bool) : bool := default false o.

(** Truthiness of a string: the empty string is falsy. *)
Definition truthy_string (s : string) : bool :=
  match s with EmptyString => false | String _ _ => true end.

(** Truthiness of an optional string: [undefined], [null] and [""] are falsy. *)
Definition truthy_ostring (o : option string) : bool :=
  match o with Some s => truthy_string s | None => false end.

(** Truthiness of an optional number ([lastMessage.startTime]): [undefined]
    and [0] are falsy. *)
Definition truthy_number (o : option Z) : bool :=
  match o with Some t => negb (t =? 0)%Z | None => false end.

(** [a || b] on optional strings, as in [data.content || ""]. *)
Definition or_else (o : option string) (d : string) : string :=
  if truthy_ostring o then default d o else d.

(** ** The data model *)

(** [interface ChatMessage].  [originalPrompt] is the optional field the
    message bubble reads on error messages ([interface Message] of
    message-bubble.tsx); the hook never writes it, and object spreads
    carry it along. *)
Record ChatMessage := mkChatMessage {
  id : string;
  isUser : bool;
  content : string;
  isStreaming : option bool;
  isWaiting : option bool;
  startTime : option Z;
  endTime : option Z;
  agent : option string;
  isError : option bool;
  originalPrompt : option string
}.

#[global] Instance ChatMessage_eq_dec : EqDecision ChatMessage.
Proof. solve_decision. Defined.

Inductive ErrorTag := tag_error | tag_system_abort.

(** [type WsEvent]: the decoded frames, by their [event] tag.  A frame with
    any other tag, or none, is [UnclassifiedEvent] and carries its optional
    [content] field. *)
Inductive WsEvent :=
| AgentStartEvent (agent : string) (status : string)
| AgentOutputEvent (agent_name : string) (content : string)
| FinalAnswerEvent (content : string)
| ErrorEvent (event : ErrorTag) (message : string)
| ThoughtsAndTasksEvent (content : string) (tasks : list (string * string))
| TaskDelegatedEvent (agent_name : string) (task : string)
| LoopRetryEvent (message : string)
| SimplificationCompleteEvent (agent_name : string) (content : string)
| ValidationScoreEvent (agent_name : string) (score : Z)
| UnclassifiedEvent (content : option string).

(** [useState<"idle" | "connecting" | "streaming" | "error">]. *)
Inductive Status := idle | connecting | streaming | error.

#[global] Instance Status_eq_dec : EqDecision Status.
Proof. solve_decision. Defined.

Inductive ReadyState := CONNECTING | OPEN | CLOSING | CLOSED.

#[global] Instance ReadyState_eq_dec : EqDecision ReadyState.
Proof. solve_decision. Defined.

(** A [WebSocket] created by [connect]: its ready state (owned by the
    browser), the [initialPrompt] its [onopen] closure captured, and the
    prompts of the frames [{ "prompt": p }] sent through it, oldest first. *)
Record WebSocket := mkWebSocket {
  readyState : ReadyState;
  initialPrompt : option string;
  sent : list string
}.

(** The state of one mounted [useWsStream]: [status], [messages] and
    [streamQueue] are its [useState] cells; [wsRef], [typingRef] and
    [idCounter] its refs.  [sockets] holds every WebSocket created so far
    ([wsRef] is an index into it, the older ones stay alive with their
    handlers), [typingRef] tells whether an interval is installed,
    [forwarded] is the sequence of [onEvent] calls, and [clockReads] and
    [randomReads] count the reads of the two oracles. *)
Record State := mkState {
  status : Status;
  messages : list ChatMessage;
  streamQueue : string;
  wsRef : option nat;
  sockets : list WebSocket;
  typingRef : bool;
  idCounter : nat;
  forwarded : list WsEvent;
  clockReads : nat;
  randomReads : nat
}.

Definition initialState : State :=
  mkState idle [] "" None [] false 0 [] 0 0.

(** The visible state of a message, in the order the message bubble tests
    the flags: error first, then waiting, then streaming. *)
Inductive MessageState := st_final | st_waiting | st_streaming | st_error.

#[global] Instance MessageState_eq_dec : EqDecision MessageState.
Proof. solve_decision. Defined.

Definition messageState (m : ChatMessage) : MessageState :=
  if truthy (isError m) then st_error
  else if truthy (isWaiting m) then st_waiting
  else if truthy (isStreaming m) then st_streaming
  else st_final.

(** ** The state monad of the handlers *)

Definition M (A : Type) : Type := State -> A * State.

Definition ret {A} (a : A) : M A := fun s => (a, s).

Definition bind {A B} (c : M A) (k : A -> M B) : M B :=
  fun s => let (a, s') := c s in k a s'.

Declare Scope hook_scope.
Delimit Scope hook_scope with hook.
Notation "x <- c ;; k" := (bind c (fun x => k))
  (at level 100, c at next level, right associativity) : hook_scope.
Notation "c ;; k" := (bind c (fun _ => k))
  (at level 100, right associativity) : hook_scope.
Local Open Scope hook_scope.

Definition exec {A} (c : M A) (s : State) : State := (c s).2.

(** [list.map] with an effectful callback, left to right. *)
Fixpoint mapM {A B} (f : A -> M B) (l : list A) : M (list B) :=
  match l with
  | [] => ret []
  | x :: l' => y <- f x ;; ys <- mapM f l' ;; ret (y :: ys)
  end.

(** *** Setters of the state cells and refs *)

Definition setStatus (v : Status) : M unit := fun s =>
  (tt, mkState v (messages s) (streamQueue s) (wsRef s) (sockets s)
         (typingRef s) (idCounter s) (forwarded s) (clockReads s) (randomReads s)).

Definition putMessages (v : list ChatMessage) : M unit := fun s =>
  (tt, mkState (status s) v (streamQueue s) (wsRef s) (sockets s)
         (typingRef s) (idCounter s) (forwarded s) (clockReads s) (randomReads s)).

Definition putStreamQueue (v : string) : M unit := fun s =>
  (tt, mkState (status s) (messages s) v (wsRef s) (sockets s)
         (typingRef s) (idCounter s) (forwarded s) (clockReads s) (randomReads s)).

Definition putWsRef (v : option nat) : M unit := fun s =>
  (tt, mkState (status s) (messages s) (streamQueue s) v (sockets s)
         (typingRef s) (idCounter s) (forwarded s) (clockReads s) (randomReads s)).

Definition putSockets (v : list WebSocket) : M unit := fun s =>
  (tt, mkState (status s) (messages s) (streamQueue s) (wsRef s) v
         (typingRef s) (idCounter s) (forwarded s) (clockReads s) (randomReads s)).

Definition putTypingRef (v : bool) : M unit := fun s =>
  (tt, mkState (status s) (messages s) (streamQueue s) (wsRef s) (sockets s)
         v (idCounter s) (forwarded s) (clockReads s) (randomReads s)).

Definition putIdCounter (v : nat) : M unit := fun s =>
  (tt, mkState (status s) (messages s) (streamQueue s) (wsRef s) (sockets s)
         (typingRef s) v (forwarded s) (clockReads s) (randomReads s)).

Definition putForwarded (v : list WsEvent) : M unit := fun s =>
  (tt, mkState (status s) (messages s) (streamQueue s) (wsRef s) (sockets s)
         (typingRef s) (idCounter s) v (clockReads s) (randomReads s)).

Definition putClockReads (v : nat) : M unit := fun s =>
  (tt, mkState (status s) (messages s) (streamQueue s) (wsRef s) (sockets s)
         (typingRef s) (idCounter s) (forwarded s) v (randomReads s)).

Definition putRandomReads (v : nat) : M unit := fun s =>
  (tt, mkState (status s) (messages s) (streamQueue s) (wsRef s) (sockets s)
         (typingRef s) (idCounter s) (forwarded s) (clockReads s) v).

Definition gets {A} (f : State -> A) : M A := fun s => (f s, s).

(** [setMessages(updater)]: the updater reads the current timeline; it may
    itself read the clock or draw an id. *)
Definition setMessages (updater : list ChatMessage -> M (list ChatMessage)) : M unit :=
  prev <- gets messages ;; next <- updater prev ;; putMessages next.

(** [setStreamQueue(updater)]. *)
Definition setStreamQueue (updater : string -> M string) : M unit :=
  prev <- gets streamQueue ;; next <- updater prev ;; putStreamQueue next.

(** ** The hook *)

Section UseWsStream.

(** [Date.now()] at its n-th read (milliseconds), and
    [Math.random().toString(36).substring(2, 7)] at its n-th draw. *)
Variable Date_now : nat -> Z.
Variable Math_random : nat -> string.

Definition dateNow : M Z :=
  n <- gets clockReads ;; putClockReads (S n) ;; ret (Date_now n).

Definition mathRandom : M string :=
  n <- gets randomReads ;; putRandomReads (S n) ;; ret (Math_random n).

Definition specialAgents : list string :=
  ["Architect Agent"; "Task Agents"; "Simplifier Agent"; "Validator Agent";
   "Final Synthesizer"].

(** Server agent names to display names. *)
Definition agentNameMap : gmap string string :=
  list_to_map
    [("Architect Agent", "Eleanor");
     ("Task Agents", "Layla");
     ("Simplifier Agent", "Nova");
     ("Validator Agent", "Isaac");
     ("Final Synthesizer", "Final Synthesizer")].

(** [generateUniqueId(prefix)]: bumps the counter, then reads the clock
    and draws the random suffix. *)
Definition generateUniqueId (prefix : string) : M string :=
  c <- gets idCounter ;;
  putIdCounter (c + 1) ;;
  now <- dateNow ;;
  r <- mathRandom ;;
  ret (prefix +:+ "-" +:+ pretty now +:+ "-" +:+ pretty (c + 1) +:+ "-" +:+ r).

(** [updated[updated.length - 1]]: on the empty array the index is -1 and
    the read is [undefined]; here the index is 0 and the lookup is [None]. *)
Definition lastIndex (l : list ChatMessage) : nat := length l - 1.

(** *** Object literals and spreads of the handlers *)

(** The waiting message of [agent_start] and [task_delegated]. *)
Definition waitingMessage (i : string) (a : string) (t : Z) : ChatMessage :=
  {| id := i; isUser := false; content := ""; isStreaming := None;
     isWaiting := Some true; startTime := Some t; endTime := None;
     agent := Some a; isError := None; originalPrompt := None |}.

(** [{ ...msg, content, isWaiting: false, endTime: Date.now() }]. *)
Definition completed (msg : ChatMessage) (c : string) (t : Z) : ChatMessage :=
  {| id := id msg; isUser := isUser msg; content := c;
     isStreaming := isStreaming msg; isWaiting := Some false;
     startTime := startTime msg; endTime := Some t;
     agent := agent msg; isError := isError msg;
     originalPrompt := originalPrompt msg |}.

(** [{ ...lastMessage, content, isStreaming: false, isWaiting: false,
      endTime: lastMessage.startTime ? Date.now() : undefined }]. *)
Definition finalized (msg : ChatMessage) (c : string) (e : option Z) : ChatMessage :=
  {| id := id msg; isUser := isUser msg; content := c;
     isStreaming := Some false; isWaiting := Some false;
     startTime := startTime msg; endTime := e;
     agent := agent msg; isError := isError msg;
     originalPrompt := originalPrompt msg |}.

(** [{ ...last, content: "", isWaiting: false, isStreaming: true }]. *)
Definition startedStreaming (msg : ChatMessage) : ChatMessage :=
  {| id := id msg; isUser := isUser msg; content := "";
     isStreaming := Some true; isWaiting := Some false;
     startTime := startTime msg; endTime := endTime msg;
     agent := agent msg; isError := isError msg;
     originalPrompt := originalPrompt msg |}.

(** [{ ...lastMessage, content: lastMessage.content + nextChar }]. *)
Definition revealed (msg : ChatMessage) (nextChar : ascii) : ChatMessage :=
  {| id := id msg; isUser := isUser msg;
     content := content msg +:+ String nextChar "";
     isStreaming := isStreaming msg; isWaiting := isWaiting msg;
     startTime := startTime msg; endTime := endTime msg;
     agent := agent msg; isError := isError msg;
     originalPrompt := originalPrompt msg |}.

(** The message pushed by [simplification_complete]. *)
Definition simplificationMessage (i : string) (c : string) : ChatMessage :=
  {| id := i; isUser := false; content := c; isStreaming := None;
     isWaiting := None; startTime := None; endTime := None;
     agent := agentNameMap !! "Simplifier Agent"; isError := None;
     originalPrompt := None |}.

(** The message pushed by [final_answer]. *)
Definition finalMessage (i : string) (c : string) : ChatMessage :=
  {| id := i; isUser := false; content := c; isStreaming := Some false;
     isWaiting := None; startTime := None; endTime := None;
     agent := agentNameMap !! "Final Synthesizer"; isError := None;
     originalPrompt := None |}.

(** The message pushed by [error] and [system_abort]. *)
Definition errorMessage (i : string) (m : string) : ChatMessage :=
  {| id := i; isUser := false; content := m; isStreaming := None;
     isWaiting := None; startTime := None; endTime := None;
     agent := None; isError := Some true; originalPrompt := None |}.

(** The agent-less streaming message pushed by the default case. *)
Definition streamingMessage (i : string) (t : Z) : ChatMessage :=
  {| id := i; isUser := false; content := ""; isStreaming := Some true;
     isWaiting := None; startTime := Some t; endTime := None;
     agent := None; isError := None; originalPrompt := None |}.

(** The message pushed by [sendMessage]. *)
Definition userMessage (i : string) (p : string) : ChatMessage :=
  {| id := i; isUser := true; content := p; isStreaming := None;
     isWaiting := None; startTime := None; endTime := None;
     agent := None; isError := None; originalPrompt := None |}.

(** *** [ws.onmessage], one definition per [case] *)

Definition on_agent_start (a : string) : M unit :=
  if bool_decide (a ∈ specialAgents)
     && bool_decide (a ≠ "Task Agents")
     && bool_decide (a ≠ "Architect Agent")
     && bool_decide (a ≠ "Validator Agent")
  then
    setMessages (fun prev =>
      i <- generateUniqueId a ;;
      t <- dateNow ;;
      ret (prev ++ [waitingMessage i (default a (agentNameMap !! a)) t]))
  else ret tt.

Definition on_task_delegated (agent_name : string) : M unit :=
  setMessages (fun prev =>
    i <- generateUniqueId ("task-" +:+ agent_name) ;;
    t <- dateNow ;;
    ret (prev ++ [waitingMessage i agent_name t])).

Definition agentOutputMatches (agent_name : string) (msg : ChatMessage) : bool :=
  bool_decide (agent msg = Some agent_name) && truthy (isWaiting msg).

Definition on_agent_output (agent_name c : string) : M unit :=
  setMessages (mapM (fun msg =>
    if agentOutputMatches agent_name msg
    then t <- dateNow ;; ret (completed msg c t)
    else ret msg)).

Definition on_simplification_complete (c : string) : M unit :=
  setMessages (fun prev =>
    let updated := prev in
    match updated !! lastIndex updated with
    | Some last =>
        if truthy (isWaiting last)
           && bool_decide (agent last = agentNameMap !! "Simplifier Agent")
        then t <- dateNow ;;
             ret (<[lastIndex updated := completed last c t]> updated)
        else i <- generateUniqueId "simplification" ;;
             ret (updated ++ [simplificationMessage i c])
    | None =>
        i <- generateUniqueId "simplification" ;;
        ret (updated ++ [simplificationMessage i c])
    end).

Definition on_final_answer (c : string) : M unit :=
  setMessages (fun prev =>
    let updatedMessages := prev in
    match updatedMessages !! lastIndex updatedMessages with
    | Some lastMessage =>
        if truthy (isStreaming lastMessage) || truthy (isWaiting lastMessage)
        then
          e <- (if truthy_number (startTime lastMessage)
                then t <- dateNow ;; ret (Some t) else ret None) ;;
          ret (<[lastIndex updatedMessages := finalized lastMessage c e]>
                 updatedMessages)
        else i <- generateUniqueId "final" ;;
             ret (updatedMessages ++ [finalMessage i c])
    | None =>
        i <- generateUniqueId "final" ;;
        ret (updatedMessages ++ [finalMessage i c])
    end) ;;
  setStreamQueue (fun _ => ret "").

Definition on_error (m : string) : M unit :=
  setStatus error ;;
  setMessages (fun prev =>
    i <- generateUniqueId "error" ;;
    ret (prev ++ [errorMessage i m])).

Definition on_default (c : option string) : M unit :=
  setMessages (fun prev =>
    let updated := prev in
    match updated !! lastIndex updated with
    | Some last =>
        if truthy (isWaiting last)
        then ret (<[lastIndex updated := startedStreaming last]> updated)
        else if isUser last
                || (negb (truthy (isStreaming last))
                    && negb (truthy (isWaiting last)))
        then i <- generateUniqueId "streaming" ;;
             t <- dateNow ;;
             ret (updated ++ [streamingMessage i t])
        else ret updated
    | None =>
        i <- generateUniqueId "streaming" ;;
        t <- dateNow ;;
        ret (updated ++ [streamingMessage i t])
    end) ;;
  setStreamQueue (fun prev => ret (prev +:+ or_else c "")).

(** [onEvent?.(data)]: the decoded event goes to the dev panel as it is. *)
Definition onEvent (data : WsEvent) : M unit :=
  l <- gets forwarded ;; putForwarded (l ++ [data]).

(** The [switch] of [ws.onmessage]. *)
Definition interpret (data : WsEvent) : M unit :=
  match data with
  | AgentStartEvent a _ => on_agent_start a
  | ThoughtsAndTasksEvent _ _ => ret tt
  | TaskDelegatedEvent agent_name _ => on_task_delegated agent_name
  | AgentOutputEvent agent_name c => on_agent_output agent_name c
  | SimplificationCompleteEvent _ c => on_simplification_complete c
  | ValidationScoreEvent _ _ => ret tt
  | LoopRetryEvent _ => ret tt
  | FinalAnswerEvent c => on_final_answer c
  | ErrorEvent _ m => on_error m
  | UnclassifiedEvent c => on_default c
  end.

(** [ws.onmessage]: [None] is a frame on which [JSON.parse] throws; the
    [catch] logs it and nothing else happens. *)
Definition onmessage (frame : option WsEvent) : M unit :=
  match frame with
  | Some data => onEvent data ;; interpret data
  | None => ret tt
  end.

(** *** The typing effect *)

(** The callback of [setInterval(..., 20)]: one character of the queue
    goes to the last message if that message is streaming. *)
Definition tick : M unit :=
  setStreamQueue (fun prevQueue =>
    match prevQueue with
    | EmptyString => putTypingRef false ;; ret ""
    | String nextChar newQueue =>
        setMessages (fun prevMessages =>
          match prevMessages !! lastIndex prevMessages with
          | Some lastMessage =>
              if truthy (isStreaming lastMessage)
              then ret (take (length prevMessages - 1) prevMessages
                          ++ [revealed lastMessage nextChar])
              else ret prevMessages
          | None => ret prevMessages
          end) ;;
        ret newQueue
    end).

(** [useEffect(..., [streamQueue])] after a render: when the queue differs
    from the one of the previous render, the cleanup of the previous run
    clears the interval, and the effect installs one if the queue is not
    empty and none is installed. *)
Definition typingEffect (deps : string) : M unit :=
  q <- gets streamQueue ;;
  if bool_decide (q = deps) then ret tt
  else
    (r <- gets typingRef ;; if r then putTypingRef false else ret tt) ;;
    r <- gets typingRef ;;
    if (0 <? String.length q)%nat && negb r then putTypingRef true else ret tt.

(** *** The connection *)

(** [ws.send(JSON.stringify({ prompt }))] on socket [k]. *)
Definition wsSend (k : nat) (prompt : string) : M unit :=
  ss <- gets sockets ;;
  match ss !! k with
  | Some w =>
      putSockets
        (<[k := mkWebSocket (readyState w) (initialPrompt w) (sent w ++ [prompt])]> ss)
  | None => ret tt
  end.

(** [connect(initialPrompt)]: a new socket, which [wsRef] now points to. *)
Definition connect (prompt : option string) : M unit :=
  setStatus connecting ;;
  ss <- gets sockets ;;
  putSockets (ss ++ [mkWebSocket CONNECTING prompt []]) ;;
  putWsRef (Some (length ss)).

(** [ws.onopen] of socket [k]; the browser fires it once, on a connecting
    socket, which is open from then on. *)
Definition onopen (k : nat) : M unit :=
  ss <- gets sockets ;;
  match ss !! k with
  | Some w =>
      if bool_decide (readyState w = CONNECTING)
      then
        putSockets (<[k := mkWebSocket OPEN (initialPrompt w) (sent w)]> ss) ;;
        setStatus streaming ;;
        if truthy_ostring (initialPrompt w)
        then wsSend k (default "" (initialPrompt w))
        else ret tt
      else ret tt
  | None => ret tt
  end.

(** [ws.onclose] of socket [k]. *)
Definition onclose (k : nat) : M unit :=
  ss <- gets sockets ;;
  match ss !! k with
  | Some w =>
      putSockets (<[k := mkWebSocket CLOSED (initialPrompt w) (sent w)]> ss) ;;
      setStatus idle
  | None => ret tt
  end.

(** [ws.onerror] of socket [k]. *)
Definition onerror (k : nat) : M unit :=
  ss <- gets sockets ;;
  match ss !! k with
  | Some _ => setStatus error
  | None => ret tt
  end.

(** [sendMessage(prompt)]. *)
Definition sendMessage (prompt : string) : M unit :=
  setMessages (fun prev =>
    i <- generateUniqueId "user" ;;
    ret (prev ++ [userMessage i prompt])) ;;
  r <- gets wsRef ;;
  ss <- gets sockets ;;
  match r with
  | Some k =>
      match ss !! k with
      | Some w =>
          if bool_decide (readyState w = OPEN)
          then wsSend k prompt
          else connect (Some prompt)
      | None => connect (Some prompt)
      end
  | None => connect (Some prompt)
  end.

(** *** The event loop *)

(** What the browser delivers to the hook, one at a time. *)
Inductive Input :=
| Open (k : nat)
| Message (frame : option WsEvent)
| Close (k : nat)
| Failure (k : nat)
| Tick
| Send (prompt : string).

Definition dispatch (i : Input) : M unit :=
  match i with
  | Open k => onopen k
  | Message frame => onmessage frame
  | Close k => onclose k
  | Failure k => onerror k
  | Tick => r <- gets typingRef ;; if r then tick else ret tt
  | Send prompt => sendMessage prompt
  end.

(** One turn of the event loop: the handler runs, React renders, and the
    typing effect sees the queue of the render before. *)
Definition step (s : State) (i : Input) : State :=
  exec (typingEffect (streamQueue s)) (exec (dispatch i) s).

Definition run (s : State) (inputs : list Input) : State :=
  foldl step s inputs.

(** [n] firings of the interval callback in a row. *)
Fixpoint ticks (n : nat) (s : State) : State :=
  match n with
  | 0 => s
  | S n' => ticks n' (exec tick s)
  end.

End UseWsStream.

(** ** The history client *)

Module ApiClient.

(** A settled promise: resolved with a value, or rejected with the message
    of the error thrown. *)
Inductive Outcome (A : Type) :=
| Resolved (a : A)
| Rejected (message : string).
Arguments Resolved {A} a.
Arguments Rejected {A} message.

(** [Session] of next-auth as the client reads it: [session?.user?.id]. *)
Record User := mkUser { id : option string }.
Record Session := mkSession { user : option User }.

(** [interface Conversation]. *)
Record Conversation := mkConversation {
  thread_id : string;
  messages : list ChatMessage
}.

Inductive Method := GET | POST.

(** [RequestInit]: the method, the headers object and the body. *)
Record RequestInit := mkRequestInit {
  method : Method;
  headers : gmap string string;
  body : option string
}.

(** What [apiClient] reads of a [Response]: [ok], [status], [statusText],
    the promise of [response.json()], and the [message] property of the
    parsed body, if it has one (the body of a failed call is taken to parse
    to an object with a string or no [message], or not to parse). *)
Record Response (T : Type) := mkResponse {
  ok : bool;
  status : Z;
  statusText : string;
  json : Outcome T;
  message : option string
}.
Arguments ok {T} r.
Arguments status {T} r.
Arguments statusText {T} r.
Arguments json {T} r.
Arguments message {T} r.

(** [session?.user?.id]. *)
Definition userId (session : option Session) : option string :=
  match session with
  | Some s => match user s with Some u => id u | None => None end
  | None => None
  end.

Section Client.

(** The type [T] of the call and of the optional [data] object, with
    [JSON.stringify] on it. *)
Context {T D : Type}.
Variable stringify : D -> string.

(** [process.env.NEXT_PUBLIC_AGENT_SERVER_BASE_URL]. *)
Variable AGENT_SERVER_BASE_URL : option string.

(** [fetch(url, config)]. *)
Variable fetch : string -> RequestInit -> Outcome (Response T).

(** The two guards of [apiClient] and the request it builds. *)
Definition request (endpoint : string) (m : Method) (session : option Session)
    (data : option D) : Outcome (string * RequestInit) :=
  if negb (truthy_ostring AGENT_SERVER_BASE_URL)
  then Rejected "AGENT_SERVER_BASE_URL is not defined."
  else if negb (truthy_ostring (userId session))
  then Rejected "User session is not available."
  else
    let url := default "" AGENT_SERVER_BASE_URL +:+ endpoint in
    let hs : gmap string string :=
      list_to_map
        [("Content-Type", "application/json");
         ("X-User-Id", default "" (userId session))] in
    Resolved (url, mkRequestInit m hs (stringify <$> data)).

(** [errorData.message], where [errorData] is the parsed body, or [{}]
    when the body does not parse. *)
Definition errorDataMessage (r : Response T) : option string :=
  match json r with
  | Resolved _ => message r
  | Rejected _ => None
  end.

(** [apiClient<T>(endpoint, method, session, data)]. *)
Definition apiClient (endpoint : string) (m : Method) (session : option Session)
    (data : option D) : Outcome T :=
  match request endpoint m session data with
  | Rejected e => Rejected e
  | Resolved (url, config) =>
      match fetch url config with
      | Rejected e => Rejected e
      | Resolved response =>
          if negb (ok response)
          then Rejected ("API call failed with status "
                         +:+ pretty (status response) +:+ ": "
                         +:+ or_else (errorDataMessage response)
                                     (statusText response))
          else json response
      end
  end.

End Client.

Section Query.

Variable AGENT_SERVER_BASE_URL : option string.
Variable fetch : string -> RequestInit -> Outcome (Response Conversation).

(** The [queryFn] of the conversation query; a GET carries no data. *)
Definition queryFn (session : option Session) (threadId : option string)
    : Outcome Conversation :=
  if negb (bool_decide (is_Some session)) || negb (truthy_ostring threadId)
  then Resolved (mkConversation "" [])
  else apiClient (D := Empty_set) (fun d => match d with end)
         AGENT_SERVER_BASE_URL fetch
         ("/conversation/" +:+ default "" threadId) GET session None.

End Query.

End ApiClient.




(** ** Vocabulary of the properties *)

(** A message counts as active while it shows as waiting or streaming. *)
Definition active (m : ChatMessage) : bool :=
  match messageState m with
  | st_waiting | st_streaming => true
  | st_final | st_error => false
  end.

(** The active messages authored by [a]. *)
Definition activeCount (a : string) (l : list ChatMessage) : nat :=
  length (filter (fun m => agent m = Some a ∧ active m = true) l).

(** Whether [agent_start] for the server name [a] reaches the timeline. *)
Definition headline (a : string) : bool :=
  bool_decide (a ∈ specialAgents)
  && bool_decide (a ≠ "Task Agents")
  && bool_decide (a ≠ "Architect Agent")
  && bool_decide (a ≠ "Validator Agent").

(** The number of waiting messages authored by [a] that one input opens:
    one for an [agent_start] of a headline agent displayed as [a], one for a
    [task_delegated] to [a]. *)
Definition opens (a : string) (i : Input) : nat :=
  match i with
  | Message (Some (AgentStartEvent x _)) =>
      if headline x && bool_decide (default x (agentNameMap !! x) = a) then 1 else 0
  | Message (Some (TaskDelegatedEvent x _)) =>
      if bool_decide (x = a) then 1 else 0
  | _ => 0
  end.

Definition opened (a : string) (inputs : list Input) : nat :=
  sum_list (opens a <$> inputs).

(** A sample clock and a sample random source, for closed instances. *)
Definition sampleClock (n : nat) : Z := (1700000000000 + Z.of_nat n)%Z.
Definition sampleRandom (n : nat) : string := "k3x9q".

(** At most one of the three state flags of a message is set. *)
Definition coherent (m : ChatMessage) : bool :=
  match truthy (isError m), truthy (isWaiting m), truthy (isStreaming m) with
  | true, false, false | false, true, false | false, false, true
  | false, false, false => true
  | _, _, _ => false
  end.

(** [m'] is [m] rewritten in place: the same entry (id, side, author, start
    time), not active unless [m] was, and with coherent flags if [m] had. *)
Definition inPlace (m m' : ChatMessage) : Prop :=
  id m' = id m ∧ isUser m' = isUser m ∧ agent m' = agent m
  ∧ startTime m' = startTime m ∧ (active m' = true → active m = true)
  ∧ (coherent m = true → coherent m' = true).

(** [l'] is [l] with entries rewritten in place and entries added at the
    end. *)
Definition grows (l l' : list ChatMessage) : Prop :=
  ∃ k extra, l' = k ++ extra ∧ Forall2 inPlace l k.

(** What [agent_output] does to one message. *)
Definition outputOn (a c : string) (m m' : ChatMessage) : Prop :=
  if agentOutputMatches a m then ∃ t, m' = completed m c t else m' = m.

(** The inputs that leave the timeline alone. *)
Definition quiet (i : Input) : bool :=
  match i with
  | Open _ | Close _ | Failure _ | Message None => true
  | Message (Some (ThoughtsAndTasksEvent _ _))
  | Message (Some (ValidationScoreEvent _ _))
  | Message (Some (LoopRetryEvent _)) => true
  | _ => false
  end.

(** The socket [sendMessage] may send through at once: the one [wsRef]
    points to, when its ready state is [OPEN]. *)
Definition openChannel (s : State) : option nat :=
  match wsRef s with
  | Some k =>
      match sockets s !! k with
      | Some w => if bool_decide (readyState w = OPEN) then Some k else None
      | None => None
      end
  | None => None
  end.

(** The id [generateUniqueId] returns for a prefix, a clock reading, a
    counter value and a random suffix. *)
Definition uniqueId (prefix : string) (now : Z) (c : nat) (r : string) : string :=
  prefix +:+ "-" +:+ pretty now +:+ "-" +:+ pretty c +:+ "-" +:+ r.

(** A string without the character [-]. *)
Fixpoint dashFree (s : string) : bool :=
  match s with
  | EmptyString => true
  | String a s' => negb (Ascii.eqb a "-") && dashFree s'
  end.

(** The events decoded from the frames of a sequence of inputs, in order. *)
Definition decoded (inputs : list Input) : list WsEvent :=
  omap (fun i => match i with Message (Some e) => Some e | _ => None end) inputs.

(** The prompts of the sends of a sequence of inputs, in order. *)
Definition prompts (inputs : list Input) : list string :=
  omap (fun i => match i with Send p => Some p | _ => None end) inputs.

(** The frames the switch of [ws.onmessage] has an empty case for, and the
    frames that do not parse. *)
Definition silent (i : Input) : bool :=
  match i with
  | Message None => true
  | Message (Some (ThoughtsAndTasksEvent _ _))
  | Message (Some (ValidationScoreEvent _ _))
  | Message (Some (LoopRetryEvent _)) => true
  | _ => false
  end.

(** The events of the connection. *)
Definition transport (i : Input) : bool :=
  match i with
  | Open _ | Close _ | Failure _ => true
  | _ => false
  end.

(** [m'] is [m] with, at most, content and flags rewritten and the end time
    cleared or set to a clock reading with index in [lo, hi). *)
Definition rewrittenAt (clock : nat -> Z) (lo hi : nat) (m m' : ChatMessage) : Prop :=
  id m' = id m ∧ startTime m' = startTime m
  ∧ originalPrompt m' = originalPrompt m
  ∧ (endTime m' = endTime m ∨ endTime m' = None
     ∨ ∃ n, lo ≤ n ∧ n < hi ∧ endTime m' = Some (clock n)).

(** The start time of [m], if any, is one of the first [N] clock readings,
    and its end time, if any, a reading that is not earlier. *)
Definition stamped (clock : nat -> Z) (N : nat) (m : ChatMessage) : Prop :=
  ∀ a, startTime m = Some a →
    ∃ n, n < N ∧ a = clock n
         ∧ ∀ b, endTime m = Some b → ∃ n', n ≤ n' ∧ n' < N ∧ b = clock n'.

(** The ids are [uniqueId]s with pairwise different counters, none above [N],
    and dash-free random suffixes. *)
Definition numbered (N : nat) (ids : list string) : Prop :=
  ∃ cs, Forall2 (fun i c => ∃ p now r, i = uniqueId p now c r ∧ dashFree r = true)
          ids cs
        ∧ NoDup cs ∧ Forall (fun c => c ≤ N) cs.

(** The sockets that have not opened yet and hold a prompt to send when they
    do. *)
Definition pending (ss : list WebSocket) : nat :=
  sum_list ((fun w => if bool_decide (readyState w = CONNECTING)
                         && truthy_ostring (initialPrompt w)
                      then 1 else 0) <$> ss).

(** The number of frames sent through all sockets. *)
Definition transmitted (ss : list WebSocket) : nat :=
  sum_list ((fun w => length (sent w)) <$> ss).

(** ** The composer *)

Module Composer.

(** The code units below 256 that [String.prototype.trim] removes: tab, line
    feed, vertical tab, form feed, carriage return, space and no-break
    space. *)
Definition isWhiteSpace (a : ascii) : bool :=
  match a with
  | "009" | "010" | "011" | "012" | "013" | " " | "160" => true
  | _ => false
  end%char.

Fixpoint trimStart (s : string) : string :=
  match s with
  | EmptyString => EmptyString
  | String a s' => if isWhiteSpace a then trimStart s' else s
  end.

Fixpoint trimEnd (s : string) : string :=
  match s with
  | EmptyString => EmptyString
  | String a s' =>
      match trimEnd s' with
      | EmptyString => if isWhiteSpace a then EmptyString else String a EmptyString
      | t => String a t
      end
  end.

(** [draft.trim()]. *)
Definition trim (s : string) : string := trimEnd (trimStart s).

(** Whether some code unit of the string is not white space. *)
Fixpoint hasText (s : string) : bool :=
  match s with
  | EmptyString => false
  | String a s' => negb (isWhiteSpace a) || hasText s'
  end.

Section Handlers.

Variable Date_now : nat -> Z.
Variable Math_random : nat -> string.

(** [handleSendMessage], with [onSendMessage] bound to the [sendMessage] of
    the hook as the chat window binds it; the value is the draft the composer
    holds afterwards. *)
Definition handleSendMessage (draft : string) : M string :=
  if truthy_string (trim draft)
  then sendMessage Date_now Math_random draft ;; ret ""
  else ret draft.

(** [handleKeyPress] on the key and the shift state of the event. *)
Definition handleKeyPress (key : string) (shiftKey : bool) (draft : string) : M string :=
  if bool_decide (key = "Enter") && negb shiftKey
  then handleSendMessage draft
  else ret draft.

End Handlers.

(** The [disabled] attribute of the send button. *)
Definition sendDisabled (draft : string) : bool := negb (truthy_string (trim draft)).

End Composer.

(** ** Drafts and local state in [localStorage] *)

Module LocalStorage.

(** [localStorageKey] of [useDraft]. *)
Definition draftKey (threadId : option string) : string :=
  if truthy_ostring threadId then "draft-" +:+ default "" threadId else "draft-new".

(** [scrollPositionKey] of [useScrollPosition]. *)
Definition scrollPositionKey (threadId : option string) : string :=
  if truthy_ostring threadId then "scroll-pos-" +:+ default "" threadId
  else "scroll-pos-new".

(** The thread a key stands for: no thread, the empty id and the id "new"
    share their keys. *)
Definition keyThread (threadId : option string) : string :=
  if truthy_ostring threadId then default "" threadId else "new".

Section Json.

(** The text [localStorage.setItem] is given for a value, which is
    [JSON.stringify] of it, with [None] where [JSON.stringify] throws; and
    [JSON.parse], with [None] for a parse that throws. *)
Context {T : Type}.
Variable stringify : T -> option string.
Variable parse : string -> option T.

(** Whether [localStorage.setItem] takes a write.  Where it does not it
    throws (a quota that is full, a storage that is denied) and the storage
    stays as it is. *)
Variable accepts : gmap string string -> string -> string -> bool.

(** [localStorage.setItem(key, value)]; [None] is a throw. *)
Definition setItem (storage : gmap string string) (key value : string)
    : option (gmap string string) :=
  if accepts storage key value then Some (<[key := value]> storage) else None.

(** The initializer of [useState] in [useLocalState] (and in [useDraft], with
    the empty draft as initial state): the stored value parsed, or the
    initial state when nothing is stored, the stored text is empty or its
    parse throws. *)
Definition initialValue (storage : gmap string string) (key : string)
    (initialState : T) : T :=
  match storage !! key with
  | Some storedValue =>
      if truthy_string storedValue
      then default initialState (parse storedValue)
      else initialState
  | None => initialState
  end.

(** [try { localStorage.setItem(key, JSON.stringify(state)) } catch ...],
    the body of the effect of [useLocalState] and of the cleanup of
    [useDraft]: a throw of either call is logged, and the hook goes on with
    the storage as it was. *)
Definition trySetItem (storage : gmap string string) (key : string) (state : T)
    : gmap string string :=
  match stringify state with
  | Some text => default storage (setItem storage key text)
  | None => storage
  end.

(** [useLocalState]: the state with the storage after the effect that writes
    it has run. *)
Definition mountLocalState (storage : gmap string string) (key : string)
    (initialState : T) : T * gmap string string :=
  let state := initialValue storage key initialState in
  (state, trySetItem storage key state).

Definition setLocalState (key : string) (h : T * gmap string string) (value : T)
    : T * gmap string string :=
  (value, trySetItem h.2 key value).

End Json.

(** One mounted [useDraft]: the thread it was last rendered for, the draft,
    and the storage. *)
Record Draft := mkDraft {
  threadId : option string;
  draft : string;
  storage : gmap string string
}.

Inductive DraftEvent :=
| SetDraft (value : string)
| SwitchThread (thread : option string).

Section Draft.

Variable stringify : string -> option string.
Variable parse : string -> option string.
Variable accepts : gmap string string -> string -> string -> bool.

Definition mountDraft (st : gmap string string) (thread : option string) : Draft :=
  mkDraft thread (initialValue parse st (draftKey thread) "") st.

(** The cleanup of the effect, which holds the key and the draft of the
    render that created it; a write that throws is logged and nothing is
    saved. *)
Definition saveDraft (h : Draft) : gmap string string :=
  trySetItem stringify accepts (storage h) (draftKey (threadId h)) (draft h).

(** A render with a new draft or a new thread: when the key or the draft has
    changed the cleanup of the previous effect runs; the draft state itself
    is only changed by [setDraft]. *)
Definition draftStep (h : Draft) (e : DraftEvent) : Draft :=
  match e with
  | SetDraft value =>
      if bool_decide (value = draft h) then h
      else mkDraft (threadId h) value (saveDraft h)
  | SwitchThread thread =>
      if bool_decide (draftKey thread = draftKey (threadId h))
      then mkDraft thread (draft h) (storage h)
      else mkDraft thread (draft h) (saveDraft h)
  end.

(** Unmounting runs the cleanup of the last effect. *)
Definition unmountDraft (h : Draft) : gmap string string := saveDraft h.

End Draft.

End LocalStorage.

(** ** The sidebar's history query *)

Module Sidebar.

(** [interface ConversationHistory]. *)
Record ConversationHistory := mkConversationHistory {
  thread_id : string;
  initial_prompt : string
}.

Section Query.

Variable AGENT_SERVER_BASE_URL : option string.
Variable fetch :
  string -> ApiClient.RequestInit
  -> ApiClient.Outcome (ApiClient.Response (list ConversationHistory)).

(** The [queryFn] of the history query.  [session.user.id] is read without
    guard: on a session without user the read throws (the message is the
    one of V8), and an undefined id prints as "undefined" in the path. *)
Definition queryFn (session : option ApiClient.Session)
    : ApiClient.Outcome (list ConversationHistory) :=
  match session with
  | None => ApiClient.Resolved []
  | Some s =>
      match ApiClient.user s with
      | None =>
          ApiClient.Rejected
            "Cannot read properties of undefined (reading 'id')"
      | Some u =>
          ApiClient.apiClient (D := Empty_set) (fun d => match d with end)
            AGENT_SERVER_BASE_URL fetch
            ("/history/" +:+ default "undefined" (ApiClient.id u))
            ApiClient.GET session None
      end
  end.

End Query.

End Sidebar.

(** ** The message bubble and the chat window *)

Module MessageBubble.

(** What [renderContent] shows: the error text with or without a retry
    button, the loading dots, or the content with or without the dots that
    mark streaming.  The markup built from the content (Markdown, or the
    fields of a JSON object) is a function of the content alone and is
    represented by it. *)
Inductive Body :=
| ErrorBody (text : string) (retry : option string)
| LoadingBody
| ContentBody (content : string) (streaming : bool).

(** [renderContent()] of a bubble given whether [onRetry] is passed. *)
Definition renderContent (onRetry : bool) (message : ChatMessage) : Body :=
  if truthy (isError message)
  then ErrorBody (content message)
         (if onRetry && truthy_ostring (originalPrompt message)
          then originalPrompt message else None)
  else if truthy (isWaiting message) then LoadingBody
  else ContentBody (content message) (truthy (isStreaming message)).

(** [initialMessage] of the chat window. *)
Definition initialMessage : ChatMessage :=
  {| id := "initial"; isUser := false; content := "Hello! How can I help you?";
     isStreaming := None; isWaiting := None; startTime := None; endTime := None;
     agent := None; isError := None; originalPrompt := None |}.

(** [displayMessages] of the chat window. *)
Definition displayMessages (messages : list ChatMessage) : list ChatMessage :=
  if (0 <? length messages)%nat then messages else [initialMessage].

(** The bodies the chat window shows: it passes no [onRetry]. *)
Definition bubbles (messages : list ChatMessage) : list Body :=
  renderContent false <$> displayMessages messages.

End MessageBubble.

(** ** Vocabulary of the storage properties *)

(** The threads a run of draft events switches to, and the drafts it sets. *)
Definition switchedThreads (es : list LocalStorage.DraftEvent) : list (option string) :=
  omap (fun e => match e with
                 | LocalStorage.SwitchThread t => Some t
                 | LocalStorage.SetDraft _ => None
                 end) es.

Definition setDrafts (es : list LocalStorage.DraftEvent) : list string :=
  omap (fun e => match e with
                 | LocalStorage.SetDraft v => Some v
                 | LocalStorage.SwitchThread _ => None
                 end) es.


(** A sample pair of an encoder and its parser: a quotation mark before the
    text; and two sample storages, one that takes every write and one whose
    quota is full. *)
Definition sampleStringify (d : string) : option string := Some (String "034" d).

Definition roomy (st : gmap string string) (key value : string) : bool := true.

Definition full (st : gmap string string) (key value : string) : bool := false.

Definition sampleParse (s : string) : option string :=
  match s with
  | String "034" d => Some d
  | _ => None
  end.

(** * Properties *)

Section Properties.

Variable Date_now : nat -> Z.
Variable Math_random : nat -> string.

Local Abbreviation stepH := (step Date_now Math_random).
Local Abbreviation runH := (run Date_now Math_random).
Local Abbreviation onmessageH := (onmessage Date_now Math_random).

(** ** Reading the handlers *)

Ltac hook_unfold :=
  unfold stepH, exec, dispatch, onmessage, onEvent, interpret,
    on_agent_start, on_task_delegated, on_agent_output,
    on_simplification_complete, on_final_answer, on_error, on_default,
    sendMessage, connect, wsSend, onopen, onclose, onerror, tick,
    typingEffect, generateUniqueId, dateNow, mathRandom,
    setMessages, setStreamQueue, setStatus, putMessages, putStreamQueue,
    putWsRef, putSockets, putTypingRef, putIdCounter, putForwarded,
    putClockReads, putRandomReads, gets, bind, ret in *.

Ltac hook_simpl := hook_unfold; cbn -[pretty agentNameMap lastIndex bool_decide].

(** ** Arrays read and written at their last index *)

Lemma lookup_lastIndex (l : list ChatMessage) : l !! lastIndex l = last l.
Proof. unfold lastIndex. by rewrite last_lookup, Nat.sub_1_r. Qed.

Lemma lastIndex_snoc (l : list ChatMessage) m : lastIndex (l ++ [m]) = length l.
Proof. unfold lastIndex. rewrite length_app. simpl. lia. Qed.

Lemma insert_lastIndex_snoc (l : list ChatMessage) m x :
  <[lastIndex (l ++ [m]) := x]> (l ++ [m]) = l ++ [x].
Proof.
  rewrite lastIndex_snoc. replace (length l) with (length l + 0) at 1 by lia.
  by rewrite insert_app_r.
Qed.

Lemma slice_snoc (l : list ChatMessage) m :
  take (length (l ++ [m]) - 1) (l ++ [m]) = l.
Proof.
  rewrite length_app. simpl.
  replace (length l + 1 - 1) with (length l) by lia. apply take_app_length.
Qed.

Lemma snoc_or_nil (l : list ChatMessage) : l = [] ∨ ∃ k m, l = k ++ [m].
Proof. destruct l as [|x l _] using rev_ind; eauto. Qed.

(** The typing effect touches nothing but [typingRef]. *)
Lemma typingEffect_frame deps s :
  let s' := exec (typingEffect deps) s in
  messages s' = messages s ∧ streamQueue s' = streamQueue s
  ∧ status s' = status s ∧ sockets s' = sockets s ∧ wsRef s' = wsRef s.
Proof.
  destruct s as [st ms q wr ss tr ic fw cr rr].
  hook_simpl. case_bool_decide; cbn; [done|].
  destruct tr; cbn; destruct (String.length q); cbn; done.
Qed.

Lemma typingEffect_typingRef deps s :
  streamQueue s ≠ deps →
  typingRef (exec (typingEffect deps) s)
  = negb (bool_decide (streamQueue s = "")).
Proof.
  destruct s as [st ms q wr ss tr ic fw cr rr]. cbn.
  intros Hne. hook_simpl. rewrite bool_decide_eq_false_2 by done.
  destruct tr; cbn; destruct q; cbn; done.
Qed.

Lemma step_messages s i :
  messages (stepH s i) = messages (exec (dispatch Date_now Math_random i) s).
Proof. unfold step. apply typingEffect_frame. Qed.

Lemma step_streamQueue s i :
  streamQueue (stepH s i) = streamQueue (exec (dispatch Date_now Math_random i) s).
Proof. unfold step. apply typingEffect_frame. Qed.

Lemma step_status s i :
  status (stepH s i) = status (exec (dispatch Date_now Math_random i) s).
Proof. unfold step. apply typingEffect_frame. Qed.

Lemma step_Message s frame :
  let s' := stepH s (Message frame) in
  let s1 := exec (onmessageH frame) s in
  messages s' = messages s1 ∧ streamQueue s' = streamQueue s1
  ∧ status s' = status s1.
Proof.
  cbn zeta. by rewrite step_messages, step_streamQueue, step_status.
Qed.

(** The timeline after each [case] of [ws.onmessage]. *)

Lemma agent_start_messages s a st :
  ∃ i t,
    messages (exec (onmessageH (Some (AgentStartEvent a st))) s)
    = if headline a
      then messages s ++ [waitingMessage i (default a (agentNameMap !! a)) t]
      else messages s.
Proof.
  destruct s as [st0 ms q wr ss tr ic fw cr rr].
  do 2 eexists. hook_simpl. unfold headline.
  destruct (_ && _); cbn -[pretty agentNameMap]; reflexivity.
Qed.

Lemma task_delegated_messages s a task :
  ∃ i t,
    messages (exec (onmessageH (Some (TaskDelegatedEvent a task))) s)
    = messages s ++ [waitingMessage i a t].
Proof.
  do 2 eexists. reflexivity.
Qed.

Lemma mapM_agent_output a c l s0 :
  Forall2 (outputOn a c) l
    (mapM (fun msg =>
        if agentOutputMatches a msg
        then bind (dateNow Date_now) (fun t => ret (completed msg c t))
        else ret msg) l s0).1.
Proof.
  revert s0. induction l as [|m l IH]; intros s0; cbn; [constructor|].
  unfold bind at 1. unfold outputOn at 1.
  destruct (agentOutputMatches a m) eqn:Hm.
  - hook_simpl.
    match goal with
    | |- context [mapM ?f l ?s1] =>
        specialize (IH s1); destruct (mapM f l s1) as [ys s2]
    end.
    cbn in *. constructor; [|done].
    unfold outputOn. rewrite Hm. eauto.
  - hook_simpl.
    match goal with
    | |- context [mapM ?f l ?s1] =>
        specialize (IH s1); destruct (mapM f l s1) as [ys s2]
    end.
    cbn in *. constructor; [|done].
    unfold outputOn. by rewrite Hm.
Qed.

Lemma agent_output_messages s a c :
  Forall2 (outputOn a c) (messages s)
    (messages (exec (onmessageH (Some (AgentOutputEvent a c))) s)).
Proof.
  destruct s as [st0 ms q wr ss tr ic fw cr rr].
  unfold exec, onmessage, onEvent, interpret, on_agent_output, setMessages.
  unfold bind at 1 2 3 4. unfold gets, putForwarded, putMessages. cbn.
  match goal with
  | |- context [mapM ?f ms ?s1] =>
      pose proof (mapM_agent_output a c ms s1) as H;
      destruct (mapM f ms s1) as [ys s2]
  end.
  exact H.
Qed.

Lemma simplification_complete_messages s a c :
  let s' := exec (onmessageH (Some (SimplificationCompleteEvent a c))) s in
  match last (messages s) with
  | Some m =>
      if truthy (isWaiting m)
         && bool_decide (agent m = agentNameMap !! "Simplifier Agent")
      then ∃ t, messages s' = <[lastIndex (messages s) := completed m c t]> (messages s)
      else ∃ i, messages s' = messages s ++ [simplificationMessage i c]
  | None => ∃ i, messages s' = messages s ++ [simplificationMessage i c]
  end.
Proof.
  destruct s as [st0 ms q wr ss tr ic fw cr rr].
  hook_simpl. rewrite lookup_lastIndex.
  destruct (last ms) as [m|]; [|eexists; reflexivity].
  destruct (_ && _); eexists; reflexivity.
Qed.

Lemma final_answer_messages s c :
  let s' := exec (onmessageH (Some (FinalAnswerEvent c))) s in
  match last (messages s) with
  | Some m =>
      if truthy (isStreaming m) || truthy (isWaiting m)
      then ∃ e, messages s' = <[lastIndex (messages s) := finalized m c e]> (messages s)
      else ∃ i, messages s' = messages s ++ [finalMessage i c]
  | None => ∃ i, messages s' = messages s ++ [finalMessage i c]
  end.
Proof.
  destruct s as [st0 ms q wr ss tr ic fw cr rr].
  hook_simpl. rewrite lookup_lastIndex.
  destruct (last ms) as [m|]; [|eexists; reflexivity].
  destruct (_ || _); [|eexists; reflexivity].
  destruct (truthy_number _); eexists; reflexivity.
Qed.

Lemma final_answer_streamQueue s c :
  streamQueue (exec (onmessageH (Some (FinalAnswerEvent c))) s) = "".
Proof.
  destruct s as [st0 ms q wr ss tr ic fw cr rr].
  hook_simpl. rewrite lookup_lastIndex.
  destruct (last ms) as [m|]; [|reflexivity].
  destruct (_ || _); [|reflexivity].
  destruct (truthy_number _); reflexivity.
Qed.

Lemma error_messages s tag m :
  let s' := exec (onmessageH (Some (ErrorEvent tag m))) s in
  status s' = error ∧ ∃ i, messages s' = messages s ++ [errorMessage i m].
Proof.
  split; [reflexivity|]. eexists; reflexivity.
Qed.

Lemma default_messages s c :
  let s' := exec (onmessageH (Some (UnclassifiedEvent c))) s in
  match last (messages s) with
  | Some m =>
      if truthy (isWaiting m)
      then messages s' = <[lastIndex (messages s) := startedStreaming m]> (messages s)
      else if isUser m || (negb (truthy (isStreaming m)) && negb (truthy (isWaiting m)))
      then ∃ i t, messages s' = messages s ++ [streamingMessage i t]
      else messages s' = messages s
  | None => ∃ i t, messages s' = messages s ++ [streamingMessage i t]
  end.
Proof.
  destruct s as [st0 ms q wr ss tr ic fw cr rr].
  hook_simpl. rewrite lookup_lastIndex.
  destruct (last ms) as [m|]; [|do 2 eexists; reflexivity].
  destruct (truthy (isWaiting m)); [reflexivity|].
  destruct (_ || _); [do 2 eexists|]; reflexivity.
Qed.

Lemma default_streamQueue s c :
  streamQueue (exec (onmessageH (Some (UnclassifiedEvent c))) s)
  = streamQueue s +:+ or_else c "".
Proof.
  destruct s as [st0 ms q wr ss tr ic fw cr rr].
  hook_simpl. rewrite lookup_lastIndex.
  destruct (last ms) as [m|]; [|reflexivity].
  destruct (truthy (isWaiting m)); [reflexivity|].
  destruct (_ || _); reflexivity.
Qed.

(** The interval callback. *)
Lemma tick_messages s :
  messages (exec tick s) =
  match streamQueue s with
  | EmptyString => messages s
  | String nextChar _ =>
      match last (messages s) with
      | Some m =>
          if truthy (isStreaming m)
          then take (length (messages s) - 1) (messages s) ++ [revealed m nextChar]
          else messages s
      | None => messages s
      end
  end.
Proof.
  destruct s as [st0 ms q wr ss tr ic fw cr rr].
  hook_simpl. destruct q as [|ch q']; [reflexivity|].
  cbn -[lastIndex]. rewrite lookup_lastIndex.
  destruct (last ms) as [m|]; [|reflexivity].
  destruct (truthy (isStreaming m)); reflexivity.
Qed.

Lemma tick_streamQueue s :
  streamQueue (exec tick s) =
  match streamQueue s with
  | EmptyString => ""
  | String _ newQueue => newQueue
  end.
Proof.
  destruct s as [st0 ms q wr ss tr ic fw cr rr].
  hook_simpl. destruct q as [|ch q']; [reflexivity|].
  cbn -[lastIndex]. rewrite lookup_lastIndex.
  destruct (last ms) as [m|]; [|reflexivity].
  destruct (truthy (isStreaming m)); reflexivity.
Qed.

Lemma sendMessage_messages s prompt :
  ∃ i, messages (exec (sendMessage Date_now Math_random prompt) s)
       = messages s ++ [userMessage i prompt].
Proof.
  destruct s as [st0 ms q wr ss tr ic fw cr rr].
  eexists. hook_simpl.
  destruct wr as [k|]; [|reflexivity].
  destruct (ss !! k) as [w|] eqn:Hk; [|reflexivity].
  case_bool_decide; [|reflexivity].
  cbn -[pretty]. rewrite Hk. reflexivity.
Qed.

Lemma quiet_messages s i :
  quiet i = true →
  messages (exec (dispatch Date_now Math_random i) s) = messages s.
Proof.
  destruct s as [st0 ms q wr ss tr ic fw cr rr].
  destruct i as [k|[[]|]|k|k| |p]; try discriminate; intros _; hook_simpl;
    try reflexivity.
  - destruct (ss !! k) as [w|]; [|reflexivity].
    case_bool_decide; [|reflexivity]. cbn.
    destruct (truthy_ostring _); [|reflexivity]. cbn.
    destruct (_ !! k); reflexivity.
  - destruct (ss !! k); reflexivity.
  - destruct (ss !! k); reflexivity.
Qed.

(** ** Ticks on an empty queue *)

Lemma ticks_empty_queue n s :
  streamQueue s = "" →
  messages (ticks n s) = messages s ∧ streamQueue (ticks n s) = "".
Proof.
  revert s. induction n as [|n IH]; intros s Hq; [done|].
  cbn. destruct (IH (exec tick s)) as [Hm Hs].
  - by rewrite tick_streamQueue, Hq.
  - by rewrite Hm, Hs, tick_messages, Hq.
Qed.

Lemma step_tick_empty_queue s :
  streamQueue s = "" →
  messages (stepH s Tick) = messages s ∧ streamQueue (stepH s Tick) = "".
Proof.
  intros Hq. rewrite step_messages, step_streamQueue.
  unfold dispatch, exec, bind, gets, ret. cbn.
  destruct (typingRef s); [|done].
  pose proof (tick_messages s) as Hm. pose proof (tick_streamQueue s) as Hs.
  unfold exec in Hm, Hs. by rewrite Hm, Hs, Hq.
Qed.

Lemma run_ticks_empty_queue n s :
  streamQueue s = "" →
  messages (runH s (replicate n Tick)) = messages s
  ∧ streamQueue (runH s (replicate n Tick)) = "".
Proof.
  revert s. induction n as [|n IH]; intros s Hq; [done|].
  cbn. destruct (step_tick_empty_queue s Hq) as [Hm Hs].
  destruct (IH _ Hs) as [Hm' Hs']. unfold run in Hm', Hs'.
  by rewrite Hm', Hs', Hm.
Qed.

(** C1. Whatever the reveal queue holds, a [final_answer] with payload [c]
    leaves the last message with content exactly [c]: the last message is
    finalized in place when it is flagged waiting or streaming, and otherwise
    a final message authored by the synthesizer agent is appended.  The
    reveal queue is empty afterwards, so no later tick (the interval callback
    itself, or a [Tick] of the event loop) changes the timeline. *)
Theorem final_answer_clears_reveal s c :
  let s' := stepH s (Message (Some (FinalAnswerEvent c))) in
  content <$> last (messages s') = Some c
  ∧ streamQueue s' = ""
  ∧ match last (messages s) with
    | Some m =>
        if truthy (isStreaming m) || truthy (isWaiting m)
        then ∃ e, messages s'
                  = <[lastIndex (messages s) := finalized m c e]> (messages s)
                  ∧ length (messages s') = length (messages s)
                  ∧ messageState (finalized m c e)
                    = (if truthy (isError m) then st_error else st_final)
        else ∃ f, messages s' = messages s ++ [f]
                  ∧ agent f = Some "Final Synthesizer"
                  ∧ messageState f = st_final ∧ content f = c
    | None => ∃ f, messages s' = messages s ++ [f]
                   ∧ agent f = Some "Final Synthesizer"
                   ∧ messageState f = st_final ∧ content f = c
    end
  ∧ ∀ n, messages (ticks n s') = messages s'
         ∧ messages (runH s' (replicate n Tick)) = messages s'.
Proof.
  intros s'.
  assert (Hq : streamQueue s' = "").
  { unfold s'. rewrite (proj1 (proj2 (step_Message s _))).
    apply final_answer_streamQueue. }
  pose proof (final_answer_messages s c) as Hm. cbn zeta in Hm.
  rewrite <- (proj1 (step_Message s _)) in Hm. fold s' in Hm.
  assert (Hpush : ∀ i, agent (finalMessage i c) = Some "Final Synthesizer"
                       ∧ messageState (finalMessage i c) = st_final
                       ∧ content (finalMessage i c) = c).
  { intros i. repeat split. }
  split; [|split; [done|split]].
  - destruct (snoc_or_nil (messages s)) as [Hnil|(k & m & Hk)].
    + rewrite Hnil in Hm. cbn in Hm. destruct Hm as [i ->]. done.
    + rewrite Hk, last_snoc in Hm.
      destruct (_ || _).
      * destruct Hm as [e ->]. by rewrite insert_lastIndex_snoc, last_snoc.
      * destruct Hm as [i ->]. by rewrite last_snoc.
  - destruct (last (messages s)) as [m|].
    + destruct (_ || _).
      * destruct Hm as [e He]. exists e. split; [done|]. split.
        { by rewrite He, length_insert. }
        reflexivity.
      * destruct Hm as [i Hi]. exists (finalMessage i c). by split.
    + destruct Hm as [i Hi]. exists (finalMessage i c). by split.
  - intros n. split.
    + by apply ticks_empty_queue.
    + by apply run_ticks_empty_queue.
Qed.

(** C8. An [error] or [system_abort] event with text [m] appends exactly one
    message, in error state, with content [m] and no retry prompt; the
    messages already there are unchanged, and the connection status is
    [error].  On the empty timeline, [error] with message "overloaded" gives
    the one-element timeline of that error message. *)
Theorem error_event_appends_error_message s tag m :
  let s' := stepH s (Message (Some (ErrorEvent tag m))) in
  status s' = error
  ∧ (∃ e, messages s' = messages s ++ [e]
          ∧ messageState e = st_error ∧ content e = m
          ∧ originalPrompt e = None ∧ isUser e = false)
  ∧ let s0 := stepH initialState (Message (Some (ErrorEvent tag_error "overloaded"))) in
    status s0 = error
    ∧ ∃ e, messages s0 = [e] ∧ messageState e = st_error
           ∧ content e = "overloaded" ∧ originalPrompt e = None.
Proof.
  assert (Hgen : ∀ s0 tag0 m0,
    status (stepH s0 (Message (Some (ErrorEvent tag0 m0)))) = error
    ∧ ∃ e, messages (stepH s0 (Message (Some (ErrorEvent tag0 m0))))
           = messages s0 ++ [e]
           ∧ messageState e = st_error ∧ content e = m0
           ∧ originalPrompt e = None ∧ isUser e = false).
  { intros s0 tag0 m0.
    destruct (step_Message s0 (Some (ErrorEvent tag0 m0))) as (Hm & _ & Hst).
    destruct (error_messages s0 tag0 m0) as [He [i Hi]].
    rewrite Hm, Hst. split; [done|].
    exists (errorMessage i m0). by rewrite Hi. }
  intros s'. destruct (Hgen s tag m) as [H1 H2].
  split; [done|]. split; [done|].
  intros s0. destruct (Hgen initialState tag_error "overloaded") as [H3 (e & He & ? & ? & ? & ?)].
  split; [done|]. by exists e.
Qed.

Lemma outputOn_no_match a c (l l' : list ChatMessage) :
  Forall2 (outputOn a c) l l' →
  Forall (fun m => ¬ (agent m = Some a ∧ truthy (isWaiting m) = true)) l →
  l' = l.
Proof.
  induction 1 as [|m m' l l' Hout _ IH]; intros Hno; [done|].
  apply Forall_cons in Hno as [Hm Hl]. rewrite (IH Hl). f_equal.
  unfold outputOn, agentOutputMatches in Hout.
  destruct (bool_decide_reflect (agent m = Some a)) as [Ha|Ha]; cbn in Hout; [|done].
  destruct (truthy (isWaiting m)) eqn:Hw; [|done].
  by destruct Hm.
Qed.

(** C6. When no message of the timeline is both authored by the agent named
    in an [agent_output] event and flagged waiting, the event leaves the
    timeline as it is: nothing is added and no message changes. *)
Theorem agent_output_without_waiting_is_dropped s a c :
  Forall (fun m => ¬ (agent m = Some a ∧ truthy (isWaiting m) = true)) (messages s) →
  messages (stepH s (Message (Some (AgentOutputEvent a c)))) = messages s.
Proof.
  intros Hno. rewrite (proj1 (step_Message s _)).
  eapply outputOn_no_match; [apply agent_output_messages|done].
Qed.


(** C3 (amended). From the empty timeline, [agent_start] for "Eleanor"
    appends nothing, as "Eleanor" is not the server name of a headline agent,
    so the [agent_output] for "Eleanor" that follows finds no waiting message
    and the timeline stays empty.  When the waiting message comes from
    [task_delegated] to "Eleanor", or from [agent_start] of the headline agent
    "Simplifier Agent" (shown as "Nova") followed by the output of "Nova",
    the timeline ends as exactly one message of that author, final, with
    content "plan ready". *)
Theorem agent_start_then_output_scenario (st task : string) :
  messages (runH initialState
              [Message (Some (AgentStartEvent "Eleanor" st));
               Message (Some (AgentOutputEvent "Eleanor" "plan ready"))]) = []
  ∧ (∃ m, messages (runH initialState
              [Message (Some (TaskDelegatedEvent "Eleanor" task));
               Message (Some (AgentOutputEvent "Eleanor" "plan ready"))]) = [m]
          ∧ agent m = Some "Eleanor" ∧ messageState m = st_final
          ∧ content m = "plan ready")
  ∧ (∃ m, messages (runH initialState
              [Message (Some (AgentStartEvent "Simplifier Agent" st));
               Message (Some (AgentOutputEvent "Nova" "plan ready"))]) = [m]
          ∧ agent m = Some "Nova" ∧ messageState m = st_final
          ∧ content m = "plan ready").
Proof.
  split; [by vm_compute|].
  split; eexists; (split; [vm_compute; reflexivity|]); by vm_compute.
Qed.

Lemma append_snoc (s q : string) ch :
  (s +:+ String ch "") +:+ q = s +:+ String ch q.
Proof.
  induction s as [|a s IH]; [reflexivity|].
  change (String a ((s +:+ String ch "") +:+ q) = String a (s +:+ String ch q)).
  by rewrite IH.
Qed.

(** The ticks drain the queue into a streaming last message, one character
    each. *)
Lemma ticks_drain q s k m :
  messages s = k ++ [m] → truthy (isStreaming m) = true → streamQueue s = q →
  ∃ m', messages (ticks (String.length q) s) = k ++ [m']
        ∧ content m' = content m +:+ q
        ∧ id m' = id m ∧ isStreaming m' = isStreaming m
        ∧ streamQueue (ticks (String.length q) s) = "".
Proof.
  revert s m. induction q as [|ch q IH]; intros s m Hm Hs Hq.
  - exists m. cbn. repeat split; try done.
    clear. induction (content m) as [|a c IH]; [done|].
    change (String a c = String a (c +:+ "")). by rewrite <- IH.
  - cbn [String.length ticks].
    destruct (IH (exec tick s) (revealed m ch)) as (m' & H1 & H2 & H3 & H4 & H5).
    + rewrite tick_messages, Hq, Hm, last_snoc, Hs. by rewrite slice_snoc.
    + done.
    + by rewrite tick_streamQueue, Hq.
    + exists m'. repeat split; try done.
      rewrite H2. cbn. apply append_snoc.
Qed.

(** C7. An unclassified (raw text) event always appends its content (the
    empty string when it has none) to the reveal queue.  If the last message
    is flagged waiting, it is rewritten in place as streaming with empty
    content; if the timeline is empty, or the last message is not waiting
    and is a user message or is not streaming either (final or error), one
    streaming message with empty content is appended; if the last message is
    a streaming agent message, the timeline is unchanged.  On the empty
    timeline the fragments "Hel" and "lo" create one streaming message, and
    once the ticks have drained the queue its content is "Hello", also when
    ticks fall between the two fragments. *)
Theorem raw_fragment_streams s c :
  let s' := stepH s (Message (Some (UnclassifiedEvent c))) in
  streamQueue s' = streamQueue s +:+ or_else c ""
  ∧ (∀ m, last (messages s) = Some m → truthy (isWaiting m) = true →
       messages s' = <[lastIndex (messages s) := startedStreaming m]> (messages s)
       ∧ length (messages s') = length (messages s)
       ∧ content (startedStreaming m) = ""
       ∧ (messageState m = st_waiting →
          messageState (startedStreaming m) = st_streaming))
  ∧ (messages s = []
     ∨ (∃ m, last (messages s) = Some m ∧ truthy (isWaiting m) = false
             ∧ (isUser m = true ∨ truthy (isStreaming m) = false)) →
     ∃ n, messages s' = messages s ++ [n]
          ∧ messageState n = st_streaming ∧ content n = "" ∧ isUser n = false)
  ∧ (∀ m, last (messages s) = Some m → truthy (isWaiting m) = false →
       isUser m = false → truthy (isStreaming m) = true →
       messages s' = messages s)
  ∧ (∀ k m, messages s' = k ++ [m] → truthy (isStreaming m) = true →
       let drained := ticks (String.length (streamQueue s')) s' in
       ∃ m', messages drained = k ++ [m']
             ∧ content m' = content m +:+ streamQueue s'
             ∧ streamQueue drained = "")
  ∧ (let s1 := stepH initialState (Message (Some (UnclassifiedEvent (Some "Hel")))) in
     let s2 := stepH s1 (Message (Some (UnclassifiedEvent (Some "lo")))) in
     let s3 := runH s2 (replicate 5 Tick) in
     ∃ m, messages s1 = [m] ∧ messages s2 = [m]
          ∧ messageState m = st_streaming ∧ content m = ""
          ∧ streamQueue s1 = "Hel" ∧ streamQueue s2 = "Hello"
          ∧ messages s3 = [revealed (revealed (revealed (revealed (revealed m
                              "H") "e") "l") "l") "o"]
          ∧ content <$> messages s3 = ["Hello"]
          ∧ messageState <$> messages s3 = [st_streaming]
          ∧ streamQueue s3 = ""
          ∧ content <$> messages
              (runH initialState
                 [Message (Some (UnclassifiedEvent (Some "Hel"))); Tick; Tick;
                  Message (Some (UnclassifiedEvent (Some "lo")));
                  Tick; Tick; Tick; Tick]) = ["Hello"]).
Proof.
  intros s'.
  pose proof (default_messages s c) as Hm. cbn zeta in Hm.
  rewrite <- (proj1 (step_Message s _)) in Hm. fold s' in Hm.
  split.
  { unfold s'. rewrite (proj1 (proj2 (step_Message s _))). apply default_streamQueue. }
  split.
  { intros m Hl Hw. rewrite Hl, Hw in Hm. split; [done|].
    split; [by rewrite Hm, length_insert|]. split; [done|].
    unfold messageState, truthy. cbn. by destruct (default false (isError m)). }
  split.
  { intros [Hnil|(m & Hl & Hw & Hor)].
    - rewrite Hnil in Hm. cbn in Hm. destruct Hm as (i & t & Hm).
      exists (streamingMessage i t). by rewrite Hm, Hnil.
    - rewrite Hl, Hw in Hm.
      assert (isUser m || (negb (truthy (isStreaming m)) && negb false) = true) as Hc.
      { destruct Hor as [->| ->]; [done|]. by rewrite orb_true_r. }
      rewrite Hc in Hm. destruct Hm as (i & t & Hm).
      by exists (streamingMessage i t). }
  split.
  { intros m Hl Hw Hu Hs. by rewrite Hl, Hw, Hu, Hs in Hm. }
  split.
  { intros k m Hk Hs drained.
    destruct (ticks_drain (streamQueue s') s' k m Hk Hs eq_refl)
      as (m' & ? & ? & _ & _ & ?).
    by exists m'. }
  cbn zeta. eexists.
  split; [vm_compute; reflexivity|]. by vm_compute.
Qed.

(** ** Every step rewrites in place or appends *)

Lemma inPlace_refl m : inPlace m m.
Proof. by repeat split. Qed.

Lemma inPlace_trans m1 m2 m3 : inPlace m1 m2 → inPlace m2 m3 → inPlace m1 m3.
Proof.
  intros (?&?&?&?&H12&C12) (?&?&?&?&H23&C23).
  repeat split; try congruence; auto.
Qed.

Lemma Forall2_inPlace_refl l : Forall2 inPlace l l.
Proof. induction l; constructor; auto using inPlace_refl. Qed.

Lemma Forall2_inPlace_trans l1 l2 l3 :
  Forall2 inPlace l1 l2 → Forall2 inPlace l2 l3 → Forall2 inPlace l1 l3.
Proof.
  intros H. revert l3. induction H as [|m1 m2 l1 l2 Hm _ IH]; intros l3 H3.
  - by inversion H3.
  - inversion H3; subst. constructor; eauto using inPlace_trans.
Qed.

Lemma inPlace_completed m c t : inPlace m (completed m c t).
Proof.
  repeat split; unfold active, coherent, messageState, truthy; cbn;
    destruct (default false (isError m));
    destruct (default false (isWaiting m));
    by destruct (default false (isStreaming m)).
Qed.

Lemma inPlace_finalized m c e : inPlace m (finalized m c e).
Proof.
  repeat split; unfold active, coherent, messageState, truthy; cbn;
    by destruct (default false (isError m)).
Qed.

Lemma inPlace_startedStreaming m :
  truthy (isWaiting m) = true → inPlace m (startedStreaming m).
Proof.
  intros Hw. repeat split; revert Hw;
    unfold active, coherent, messageState, truthy; cbn;
    destruct (default false (isError m)); try done; by intros ->.
Qed.

Lemma inPlace_revealed m ch : inPlace m (revealed m ch).
Proof. by repeat split. Qed.

Lemma inPlace_outputOn a c m m' : outputOn a c m m' → inPlace m m'.
Proof.
  unfold outputOn. destruct (agentOutputMatches a m).
  - intros [t ->]. apply inPlace_completed.
  - intros ->. apply inPlace_refl.
Qed.

(** Rewriting the last entry, by index or by slice. *)
Lemma rewrite_last l m x :
  last l = Some m → inPlace m x →
  <[lastIndex l := x]> l = take (length l - 1) l ++ [x]
  ∧ Forall2 inPlace l (take (length l - 1) l ++ [x]).
Proof.
  intros Hl Hx. apply last_Some in Hl as [k ->].
  rewrite insert_lastIndex_snoc, slice_snoc. split; [done|].
  apply Forall2_app; [apply Forall2_inPlace_refl|by constructor].
Qed.

Lemma step_timeline s i :
  Forall2 inPlace (messages s) (messages (stepH s i))
  ∨ ∃ m, messages (stepH s i) = messages s ++ [m]
         ∧ coherent m = true
         ∧ ∀ a, agent m = Some a → active m = true → opens a i = 1.
Proof.
  destruct (quiet i) eqn:Hq.
  { left. rewrite step_messages, quiet_messages by done.
    apply Forall2_inPlace_refl. }
  destruct i as [k|[e|]|k|k| |p]; try discriminate Hq.
  - (* a decoded frame *)
    rewrite (proj1 (step_Message s _)).
    destruct e as [x st|x c|c|tag c|c ts|x task|c|x c|x sc|c]; try discriminate Hq.
    + destruct (agent_start_messages s x st) as (i & t & ->).
      destruct (headline x) eqn:Hh; [|left; apply Forall2_inPlace_refl].
      right. eexists. split; [done|]. split; [done|]. intros a [= <-] _.
      cbn -[agentNameMap]. rewrite Hh. by rewrite bool_decide_eq_true_2.
    + left. eapply Forall2_impl; [apply agent_output_messages|].
      apply inPlace_outputOn.
    + pose proof (final_answer_messages s c) as H. cbn zeta in H.
      destruct (last (messages s)) as [m|] eqn:Hl.
      * destruct (_ || _).
        -- destruct H as [e ->]. left.
           destruct (rewrite_last _ m (finalized m c e) Hl) as [-> ?];
             auto using inPlace_finalized.
        -- destruct H as [i ->]. right. eexists. split; [done|]. split; [done|]. by intros a _ [=].
      * destruct H as [i ->]. right. eexists. split; [done|]. split; [done|]. by intros a _ [=].
    + destruct (error_messages s tag c) as [_ [i ->]].
      right. eexists. split; [done|]. split; [done|]. by intros a [=].
    + destruct (task_delegated_messages s x task) as (i & t & ->).
      right. eexists. split; [done|]. split; [done|]. intros a [= <-] _.
      cbn. by rewrite bool_decide_eq_true_2.
    + pose proof (simplification_complete_messages s x c) as H. cbn zeta in H.
      destruct (last (messages s)) as [m|] eqn:Hl.
      * destruct (_ && _).
        -- destruct H as [t ->]. left.
           destruct (rewrite_last _ m (completed m c t) Hl) as [-> ?];
             auto using inPlace_completed.
        -- destruct H as [i ->]. right. eexists. split; [done|]. split; [done|]. by intros a _ [=].
      * destruct H as [i ->]. right. eexists. split; [done|]. split; [done|]. by intros a _ [=].
    + pose proof (default_messages s c) as H. cbn zeta in H.
      destruct (last (messages s)) as [m|] eqn:Hl.
      * destruct (truthy (isWaiting m)) eqn:Hw.
        -- rewrite H. left.
           destruct (rewrite_last _ m (startedStreaming m) Hl) as [-> ?];
             auto using inPlace_startedStreaming.
        -- destruct (_ || _).
           ++ destruct H as (i & t & ->). right. eexists. split; [done|]. split; [done|].
              by intros a [=].
           ++ rewrite H. left. apply Forall2_inPlace_refl.
      * destruct H as (i & t & ->). right. eexists. split; [done|]. split; [done|]. by intros a [=].
  - (* the interval fires *)
    left. rewrite step_messages.
    unfold dispatch, exec, bind, gets. cbn.
    destruct (typingRef s); [|apply Forall2_inPlace_refl].
    pose proof (tick_messages s) as H. unfold exec in H. rewrite H.
    destruct (streamQueue s) as [|ch q']; [apply Forall2_inPlace_refl|].
    destruct (last (messages s)) as [m|] eqn:Hl; [|apply Forall2_inPlace_refl].
    destruct (truthy (isStreaming m)); [|apply Forall2_inPlace_refl].
    by apply (rewrite_last _ m (revealed m ch) Hl), inPlace_revealed.
  - (* the user sends *)
    right. rewrite step_messages.
    destruct (sendMessage_messages s p) as [i Hi]. cbn. rewrite Hi.
    eexists. split; [done|]. split; [done|]. by intros a [=].
Qed.

Lemma grows_refl l : grows l l.
Proof.
  exists l, []. split; [by rewrite app_nil_r|apply Forall2_inPlace_refl].
Qed.

Lemma grows_trans l1 l2 l3 : grows l1 l2 → grows l2 l3 → grows l1 l3.
Proof.
  intros (k & e & -> & H12) (k' & e' & -> & H23).
  apply Forall2_app_inv_l in H23 as (k1 & k2 & Hk1 & _ & ->).
  exists k1, (k2 ++ e'). split; [by rewrite <- app_assoc|].
  eauto using Forall2_inPlace_trans.
Qed.

Lemma step_grows s i : grows (messages s) (messages (stepH s i)).
Proof.
  destruct (step_timeline s i) as [H|(m & -> & _)].
  - exists (messages (stepH s i)), []. by rewrite app_nil_r.
  - exists (messages s), [m]. split; [done|apply Forall2_inPlace_refl].
Qed.

Lemma run_grows s inputs : grows (messages s) (messages (runH s inputs)).
Proof.
  revert s. induction inputs as [|i inputs IH]; intros s; [apply grows_refl|].
  cbn. eapply grows_trans; [apply step_grows|apply IH].
Qed.

Lemma grows_length l l' : grows l l' → length l ≤ length l'.
Proof.
  intros (k & e & -> & H). rewrite length_app, (Forall2_length _ _ _ H). lia.
Qed.

Lemma grows_ids l l' : grows l l' → (id <$> l) `prefix_of` (id <$> l').
Proof.
  intros (k & e & -> & H). rewrite fmap_app.
  replace (id <$> l) with (id <$> k); [by apply prefix_app_r|].
  induction H as [|m m' l k (Hid&_) _ IH]; [done|]. cbn. by rewrite Hid, IH.
Qed.

(** C5. Along any sequence of inputs (frames, interval ticks, sends and
    connection events; the thread replacement is no input) the timeline only
    grows: each earlier message is still at its position with its id, side,
    author and start time, rewritten in place at most, and new messages come
    at the end; so its length never decreases from one prefix of the
    sequence to a longer one. *)
Theorem timeline_append_only s inputs more :
  grows (messages s) (messages (runH s inputs))
  ∧ length (messages s) ≤ length (messages (runH s inputs))
  ∧ (id <$> messages s) `prefix_of` (id <$> messages (runH s inputs))
  ∧ length (messages (runH s inputs))
    ≤ length (messages (runH s (inputs ++ more))).
Proof.
  pose proof (run_grows s inputs) as H.
  split; [done|]. split; [by apply grows_length|]. split; [by apply grows_ids|].
  unfold run. rewrite foldl_app. apply grows_length, run_grows.
Qed.

(** ** Active messages of one agent *)

Lemma activeCount_app a l l' :
  activeCount a (l ++ l') = activeCount a l + activeCount a l'.
Proof. unfold activeCount. by rewrite filter_app, length_app. Qed.

Lemma activeCount_inPlace a l l' :
  Forall2 inPlace l l' → activeCount a l' ≤ activeCount a l.
Proof.
  unfold activeCount.
  induction 1 as [|m m' l l' (_&_&Hag&_&Hact&_) _ IH]; [done|].
  rewrite !filter_cons.
  destruct (decide (agent m' = Some a ∧ active m' = true)) as [[Ha Hm]|].
  - rewrite decide_True; [cbn; lia|]. split; [congruence|auto].
  - destruct (decide (agent m = Some a ∧ active m = true)); cbn; lia.
Qed.

Lemma step_activeCount a s i :
  activeCount a (messages (stepH s i)) ≤ activeCount a (messages s) + opens a i.
Proof.
  destruct (step_timeline s i) as [H|(m & -> & _ & Hm)].
  - pose proof (activeCount_inPlace a _ _ H). lia.
  - rewrite activeCount_app. apply Nat.add_le_mono_l.
    unfold activeCount. rewrite filter_cons, filter_nil.
    destruct (decide (agent m = Some a ∧ active m = true)) as [[Ha Hact]|].
    + by rewrite (Hm a Ha Hact).
    + cbn. lia.
Qed.

Lemma run_activeCount a s inputs :
  activeCount a (messages (runH s inputs))
  ≤ activeCount a (messages s) + opened a inputs.
Proof.
  revert s. induction inputs as [|i inputs IH]; intros s; [cbn; lia|].
  cbn. pose proof (IH (stepH s i)) as H. unfold run in H.
  pose proof (step_activeCount a s i). unfold opened in *. lia.
Qed.

(** C4 (amended). The hook keeps no single active slot per agent: an
    [agent_start] of a headline agent and a [task_delegated] each append a
    new waiting message, whatever the state of the earlier messages of that
    agent.  From the empty timeline, the number of messages of an agent that
    are waiting or streaming is, after any sequence of inputs, at most the
    number of such events processed for that agent. *)
Theorem active_messages_bounded_by_opened a inputs :
  activeCount a (messages (runH initialState inputs)) ≤ opened a inputs
  ∧ (∀ s x st, headline x = true → default x (agentNameMap !! x) = a →
       activeCount a (messages (stepH s (Message (Some (AgentStartEvent x st)))))
       = activeCount a (messages s) + 1)
  ∧ (∀ s task,
       activeCount a (messages (stepH s (Message (Some (TaskDelegatedEvent a task)))))
       = activeCount a (messages s) + 1).
Proof.
  split; [apply (run_activeCount a initialState)|]. split.
  - intros s x st Hh Hx. rewrite (proj1 (step_Message s _)).
    destruct (agent_start_messages s x st) as (i & t & ->).
    rewrite Hh, Hx, activeCount_app. f_equal.
    unfold activeCount. rewrite filter_cons, filter_nil.
    by rewrite decide_True.
  - intros s task. rewrite (proj1 (step_Message s _)).
    destruct (task_delegated_messages s a task) as (i & t & ->).
    rewrite activeCount_app. f_equal.
    unfold activeCount. rewrite filter_cons, filter_nil.
    by rewrite decide_True.
Qed.

(** ** Sending *)

Lemma sendMessage_channel s prompt :
  let s' := exec (sendMessage Date_now Math_random prompt) s in
  streamQueue s' = streamQueue s
  ∧ match openChannel s with
    | Some k =>
        ∃ w, sockets s !! k = Some w
             ∧ sockets s'
               = <[k := mkWebSocket OPEN (initialPrompt w) (sent w ++ [prompt])]>
                   (sockets s)
             ∧ wsRef s' = wsRef s ∧ status s' = status s
    | None =>
        sockets s' = sockets s ++ [mkWebSocket CONNECTING (Some prompt) []]
        ∧ wsRef s' = Some (length (sockets s)) ∧ status s' = connecting
    end.
Proof.
  destruct s as [st0 ms q wr ss tr ic fw cr rr].
  unfold openChannel. hook_simpl.
  destruct wr as [k|]; [|done].
  destruct (ss !! k) as [w|] eqn:Hk; [|done].
  case_bool_decide as Hopen; [|done].
  cbn -[pretty]. rewrite Hk. cbn. split; [done|].
  exists w. by rewrite Hopen.
Qed.

Lemma onopen_fresh_socket s k prompt :
  sockets s !! k = Some (mkWebSocket CONNECTING (Some prompt) []) →
  truthy_string prompt = true →
  sockets (exec (onopen k) s) !! k = Some (mkWebSocket OPEN (Some prompt) [prompt])
  ∧ status (exec (onopen k) s) = streaming.
Proof.
  destruct s as [st0 ms q wr ss tr ic fw cr rr]. cbn.
  intros Hk Hp. hook_simpl. rewrite Hk. cbn. rewrite Hp. cbn.
  assert (k < length ss) as Hlt by (by eapply lookup_lt_Some).
  rewrite list_lookup_insert_eq by done. cbn.
  rewrite bool_decide_eq_true_2 by done. cbn.
  rewrite list_insert_insert_eq. split; [|done].
  by rewrite list_lookup_insert_eq.
Qed.

(** C10 (amended). [sendMessage] appends exactly one message at the end of
    the timeline: a user message with the prompt as content, neither waiting
    nor streaming nor error; the messages before it and the reveal queue are
    untouched.  The prompt is sent at once through the channel [wsRef] points
    to when that channel is open; otherwise a new connection is started with
    the prompt as its initial prompt, and when it opens it sends the prompt,
    provided the prompt is not the empty string. *)
Theorem sendMessage_appends_user_message s prompt :
  let s' := stepH s (Send prompt) in
  (∃ u, messages s' = messages s ++ [u]
        ∧ isUser u = true ∧ content u = prompt ∧ messageState u = st_final)
  ∧ streamQueue s' = streamQueue s
  ∧ match openChannel s with
    | Some k =>
        ∃ w, sockets s !! k = Some w
             ∧ sockets s'
               = <[k := mkWebSocket OPEN (initialPrompt w) (sent w ++ [prompt])]>
                   (sockets s)
             ∧ wsRef s' = wsRef s ∧ status s' = status s
    | None =>
        sockets s' = sockets s ++ [mkWebSocket CONNECTING (Some prompt) []]
        ∧ wsRef s' = Some (length (sockets s)) ∧ status s' = connecting
        ∧ (truthy_string prompt = true →
           let s'' := stepH s' (Open (length (sockets s))) in
           sockets s'' !! length (sockets s)
           = Some (mkWebSocket OPEN (Some prompt) [prompt])
           ∧ status s'' = streaming ∧ messages s'' = messages s')
    end.
Proof.
  intros s'.
  assert (Hfr : ∀ s0 i,
    sockets (stepH s0 i) = sockets (exec (dispatch Date_now Math_random i) s0)
    ∧ wsRef (stepH s0 i) = wsRef (exec (dispatch Date_now Math_random i) s0)).
  { intros s0 i. unfold step. split; apply typingEffect_frame. }
  destruct (sendMessage_messages s prompt) as [i Hi].
  destruct (sendMessage_channel s prompt) as [Hq Hch].
  split; [|split].
  - exists (userMessage i prompt). unfold s'. by rewrite step_messages.
  - unfold s'. by rewrite step_streamQueue.
  - destruct (openChannel s) as [k|].
    + destruct Hch as (w & Hk & Hs & Hw & Hst). exists w.
      unfold s'. rewrite step_status, (proj1 (Hfr _ _)), (proj2 (Hfr _ _)).
      by cbn.
    + destruct Hch as (Hs & Hw & Hst).
      assert (Hs' : sockets s' = sockets s ++ [mkWebSocket CONNECTING (Some prompt) []]).
      { unfold s'. by rewrite (proj1 (Hfr _ _)). }
      split; [done|]. split; [unfold s'; by rewrite (proj2 (Hfr _ _))|].
      split; [unfold s'; by rewrite step_status|].
      intros Hp s''.
      destruct (onopen_fresh_socket s' (length (sockets s)) prompt) as [Ho Hst'].
      { rewrite Hs'. by rewrite lookup_app_r, Nat.sub_diag. }
      { done. }
      unfold s''. rewrite step_status, (proj1 (Hfr _ _)), step_messages.
      split; [done|]. split; [done|]. by apply quiet_messages.
Qed.

(** ** Coherent flags *)

Lemma step_coherent s i :
  Forall (fun m => coherent m = true) (messages s) →
  Forall (fun m => coherent m = true) (messages (stepH s i)).
Proof.
  intros Hs. destruct (step_timeline s i) as [H|(m & -> & Hm & _)].
  - induction H as [|m m' l l' (_&_&_&_&_&Hc) _ IH]; [done|].
    apply Forall_cons in Hs as [? ?]. constructor; auto.
  - apply Forall_app. split; [done|]. by constructor.
Qed.

(** On a timeline the hook has built from the empty one, no message carries
    two state flags. *)
Lemma hook_timeline_coherent inputs :
  Forall (fun m => coherent m = true) (messages (runH initialState inputs)).
Proof.
  assert (∀ s, Forall (fun m => coherent m = true) (messages s) →
               Forall (fun m => coherent m = true) (messages (runH s inputs))) as H.
  { induction inputs as [|i inputs IH]; intros s Hs; [done|].
    cbn. apply IH, step_coherent, Hs. }
  apply H. constructor.
Qed.

(** C2 (amended). An [agent_output] event rewrites every message that is
    authored by the named agent and flagged waiting, not only the latest one:
    its content becomes the payload, its waiting flag is cleared and its end
    time is stamped, so that it shows as final if it carries no other state
    flag, as is the case for every waiting message of a timeline the hook has
    built from the empty one.  Every other message, in particular every message of the
    same agent that is no longer waiting, stays as it is, and the timeline
    keeps its length. *)
Theorem agent_output_completes_every_waiting s a c inputs :
  let s' := stepH s (Message (Some (AgentOutputEvent a c))) in
  length (messages s') = length (messages s)
  ∧ (∀ k m, messages s !! k = Some m →
      ∃ m', messages s' !! k = Some m'
        ∧ if bool_decide (agent m = Some a) && truthy (isWaiting m)
          then (∃ t, m' = completed m c t)
               ∧ content m' = c ∧ isWaiting m' = Some false
               ∧ is_Some (endTime m')
               ∧ (coherent m = true → messageState m' = st_final)
          else m' = m)
  ∧ (let built := runH initialState inputs in
     ∀ k m, messages built !! k = Some m →
       agent m = Some a → messageState m = st_waiting →
       ∃ t, messages (stepH built (Message (Some (AgentOutputEvent a c)))) !! k
            = Some (completed m c t)
            ∧ messageState (completed m c t) = st_final).
Proof.
  assert (Hgen : ∀ s0 k m, messages s0 !! k = Some m →
    ∃ m', messages (stepH s0 (Message (Some (AgentOutputEvent a c)))) !! k = Some m'
      ∧ if bool_decide (agent m = Some a) && truthy (isWaiting m)
        then (∃ t, m' = completed m c t)
             ∧ content m' = c ∧ isWaiting m' = Some false
             ∧ is_Some (endTime m')
             ∧ (coherent m = true → messageState m' = st_final)
        else m' = m).
  { intros s0 k m Hk.
    pose proof (agent_output_messages s0 a c) as H.
    rewrite <- (proj1 (step_Message s0 _)) in H.
    destruct (Forall2_lookup_l _ _ _ _ _ H Hk) as (m' & Hk' & Hout).
    exists m'. split; [done|].
    unfold outputOn, agentOutputMatches in Hout.
    destruct (_ && _) eqn:Hmatch; [|done].
    destruct Hout as [t ->]. split; [by exists t|].
    repeat split; [cbn; eauto|].
    revert Hmatch. unfold coherent, messageState, truthy. cbn.
    intros ->%andb_prop%proj2.
    destruct (default false (isError m)); [done|].
    by destruct (default false (isStreaming m)). }
  intros s'. split.
  { pose proof (agent_output_messages s a c) as H.
    rewrite <- (proj1 (step_Message s _)) in H.
    symmetry. by eapply Forall2_length. }
  split; [apply Hgen|].
  intros built k m Hk Ha Hw.
  destruct (Hgen built k m Hk) as (m' & Hk' & Hm').
  assert (coherent m = true) as Hc.
  { pose proof (hook_timeline_coherent inputs) as Hall.
    rewrite Forall_lookup in Hall. by eapply Hall. }
  assert (truthy (isWaiting m) = true) as Hflag.
  { revert Hw. unfold messageState.
    destruct (truthy (isError m)); [done|].
    destruct (truthy (isWaiting m)); [done|].
    by destruct (truthy (isStreaming m)). }
  rewrite bool_decide_eq_true_2, Hflag in Hm' by done. cbn in Hm'.
  destruct Hm' as ([t ->] & _ & _ & _ & Hfin). exists t. auto.
Qed.

(** * Further properties of the hook *)

(** ** What each handler leaves alone *)

Lemma typingEffect_counters deps s :
  let s' := exec (typingEffect deps) s in
  idCounter s' = idCounter s ∧ forwarded s' = forwarded s
  ∧ clockReads s' = clockReads s ∧ randomReads s' = randomReads s.
Proof.
  destruct s as [st ms q wr ss tr ic fw cr rr].
  hook_simpl. case_bool_decide; cbn; [done|].
  destruct tr; cbn; destruct (String.length q); cbn; done.
Qed.

Lemma mapM_agent_output_clock a c l s0 ys s2 :
  mapM (fun msg =>
        if agentOutputMatches a msg
        then bind (dateNow Date_now) (fun t => ret (completed msg c t))
        else ret msg) l s0 = (ys, s2) →
  s2 = exec (putClockReads (clockReads s2)) s0
  ∧ clockReads s0 ≤ clockReads s2
  ∧ Forall2 (fun m m' =>
       if agentOutputMatches a m
       then ∃ n, clockReads s0 ≤ n ∧ n < clockReads s2
                 ∧ m' = completed m c (Date_now n)
       else m' = m) l ys.
Proof.
  revert s0 ys s2. induction l as [|m l IH]; intros s0 ys s2.
  { intros [= <- <-]. destruct s0. cbn. repeat split; [lia|constructor]. }
  cbn [mapM]. unfold bind at 1.
  destruct (agentOutputMatches a m) eqn:Hm.
  - unfold bind at 1, dateNow, bind, gets, putClockReads, ret. cbn.
    match goal with
    | |- context [mapM ?f l ?s1] =>
        destruct (mapM f l s1) as [zs s3] eqn:Hrec
    end.
    intros [= <- <-]. apply IH in Hrec as (H1 & H2 & H3). cbn in H1, H2, H3.
    split; [|split].
    + rewrite H1 at 1. by destruct s0.
    + lia.
    + constructor.
      * rewrite Hm. exists (clockReads s0). repeat split; lia.
      * eapply Forall2_impl; [exact H3|]. intros x y. cbn.
        destruct (agentOutputMatches a x); [|done].
        intros (n & ? & ? & ->). exists n. repeat split; lia.
  - unfold ret at 1. unfold bind at 1.
    match goal with
    | |- context [mapM ?f l s0] =>
        destruct (mapM f l s0) as [zs s3] eqn:Hrec
    end.
    intros [= <- <-]. apply IH in Hrec as (H1 & H2 & H3).
    split; [done|]. split; [done|].
    constructor; [by rewrite Hm|done].
Qed.

Lemma agent_output_exec s a c :
  ∃ ys n,
    exec (onmessageH (Some (AgentOutputEvent a c))) s
    = mkState (status s) ys (streamQueue s) (wsRef s) (sockets s) (typingRef s)
        (idCounter s) (forwarded s ++ [AgentOutputEvent a c]) n (randomReads s)
    ∧ clockReads s ≤ n
    ∧ Forall2 (fun m m' =>
         if agentOutputMatches a m
         then ∃ k, clockReads s ≤ k ∧ k < n ∧ m' = completed m c (Date_now k)
         else m' = m) (messages s) ys.
Proof.
  destruct s as [st ms q wr ss tr ic fw cr rr].
  unfold exec, onmessage, onEvent, interpret, on_agent_output, setMessages.
  unfold bind at 1 2 3 4. unfold gets, putForwarded, putMessages. cbn.
  match goal with
  | |- context [mapM ?f ms ?s1] =>
      destruct (mapM f ms s1) as [ys s2] eqn:Hrec
  end.
  apply mapM_agent_output_clock in Hrec as (H1 & H2 & H3).
  cbn in H1, H2, H3. exists ys, (clockReads s2). cbn. split; [|done].
  rewrite H1. done.
Qed.

(** ** Ids, counters and clock readings of one step *)

Lemma rewrittenAt_refl lo hi m : rewrittenAt Date_now lo hi m m.
Proof. repeat split. by left. Qed.

Lemma Forall2_rewrittenAt_refl lo hi l : Forall2 (rewrittenAt Date_now lo hi) l l.
Proof. induction l; constructor; auto using rewrittenAt_refl. Qed.

Lemma rewrittenAt_last lo hi l m x :
  last l = Some m → rewrittenAt Date_now lo hi m x →
  Forall2 (rewrittenAt Date_now lo hi) l (<[lastIndex l := x]> l)
  ∧ Forall2 (rewrittenAt Date_now lo hi) l (take (length l - 1) l ++ [x]).
Proof.
  intros Hl Hx. apply last_Some in Hl as [k ->].
  rewrite insert_lastIndex_snoc, slice_snoc.
  split; (apply Forall2_app; [apply Forall2_rewrittenAt_refl|by constructor]).
Qed.

Lemma dispatch_precise s i :
  let s' := exec (dispatch Date_now Math_random i) s in
  clockReads s ≤ clockReads s'
  ∧ ((Forall2 (rewrittenAt Date_now (clockReads s) (clockReads s'))
        (messages s) (messages s')
      ∧ idCounter s' = idCounter s)
     ∨ ∃ m p, messages s' = messages s ++ [m]
         ∧ id m = uniqueId p (Date_now (clockReads s)) (idCounter s + 1)
                    (Math_random (randomReads s))
         ∧ idCounter s' = idCounter s + 1
         ∧ originalPrompt m = None
         ∧ endTime m = None
         ∧ (startTime m = None
            ∨ (startTime m = Some (Date_now (clockReads s + 1))
               ∧ clockReads s + 1 < clockReads s'))).
Proof.
  destruct s as [st ms q wr ss tr ic fw cr rr].
  destruct i as [k|[e|]|k|k| |p].
  - (* open *)
    hook_simpl. split; [|left; split; [|]].
    all: destruct (ss !! k) as [w|]; try done; try apply Forall2_rewrittenAt_refl.
    all: case_bool_decide; cbn; try done; try apply Forall2_rewrittenAt_refl.
    all: destruct (truthy_ostring _); cbn; try done;
      try apply Forall2_rewrittenAt_refl.
    all: destruct (_ !! k); cbn; try done; apply Forall2_rewrittenAt_refl.
  - (* a decoded frame *)
    destruct e as [x st0|x c|c|tag c|c ts|x task|c|x c|x sc|c].
    + hook_simpl. destruct (_ && _); cbn -[pretty agentNameMap].
      * split; [lia|]. right. eexists _, _. cbn -[pretty agentNameMap].
        repeat split; try reflexivity. right.
        replace (cr + 1) with (S cr) by lia. split; [reflexivity|lia].
      * split; [done|]. left. split; [apply Forall2_rewrittenAt_refl|done].
    + cbn zeta. cbn [dispatch].
      destruct (agent_output_exec
                  (mkState st ms q wr ss tr ic fw cr rr) x c)
        as (ys & n & Heq & Hle & HF).
      rewrite Heq. cbn in *. split; [done|]. left. split; [|done].
      eapply Forall2_impl; [exact HF|]. intros m m'. cbn.
      destruct (agentOutputMatches x m).
      * intros (k & ? & ? & ->). repeat split. right. right. by exists k.
      * intros ->. apply rewrittenAt_refl.
    + hook_simpl. rewrite lookup_lastIndex.
      destruct (last ms) as [m|] eqn:Hl.
      * destruct (_ || _).
        -- destruct (truthy_number (startTime m)); cbn; (split; [lia|]); left;
             (split; [|done]);
             eapply (rewrittenAt_last _ _ ms m), proj1 in Hl; try exact Hl;
             repeat split.
           ++ right. right. exists cr. repeat split; lia.
           ++ right. by left.
        -- cbn -[pretty agentNameMap]. split; [lia|]. right. eexists _, _.
           cbn -[pretty agentNameMap]. repeat split; try reflexivity. by left.
      * cbn -[pretty agentNameMap]. split; [lia|]. right. eexists _, _.
        cbn -[pretty agentNameMap]. repeat split; try reflexivity. by left.
    + cbn -[pretty]. split; [cbn; lia|]. right. eexists _, _.
      cbn -[pretty]. repeat split; try reflexivity. by left.
    + cbn. split; [done|]. left. split; [apply Forall2_rewrittenAt_refl|done].
    + cbn -[pretty]. split; [cbn; lia|]. right. eexists _, _.
      cbn -[pretty]. repeat split; try reflexivity. right.
      replace (cr + 1) with (S cr) by lia. split; [reflexivity|lia].
    + cbn. split; [done|]. left. split; [apply Forall2_rewrittenAt_refl|done].
    + hook_simpl. rewrite lookup_lastIndex.
      destruct (last ms) as [m|] eqn:Hl.
      * destruct (_ && _).
        -- cbn. split; [lia|]. left. split; [|done].
           eapply (rewrittenAt_last _ _ ms m), proj1 in Hl; try exact Hl.
           repeat split. right. right. exists cr. repeat split; lia.
        -- cbn -[pretty agentNameMap]. split; [lia|]. right. eexists _, _.
           cbn -[pretty agentNameMap]. repeat split; try reflexivity. by left.
      * cbn -[pretty agentNameMap]. split; [lia|]. right. eexists _, _.
        cbn -[pretty agentNameMap]. repeat split; try reflexivity. by left.
    + cbn. split; [done|]. left. split; [apply Forall2_rewrittenAt_refl|done].
    + hook_simpl. rewrite lookup_lastIndex.
      destruct (last ms) as [m|] eqn:Hl.
      * destruct (truthy (isWaiting m)).
        -- cbn. split; [done|]. left. split; [|done].
           eapply (rewrittenAt_last _ _ ms m), proj1 in Hl; try exact Hl.
           repeat split. by left.
        -- destruct (_ || _).
           ++ cbn -[pretty]. split; [lia|]. right. eexists _, _.
              cbn -[pretty]. repeat split; try reflexivity. right.
              replace (cr + 1) with (S cr) by lia. split; [reflexivity|lia].
           ++ cbn. split; [done|]. left.
              split; [apply Forall2_rewrittenAt_refl|done].
      * cbn -[pretty]. split; [lia|]. right. eexists _, _.
        cbn -[pretty]. repeat split; try reflexivity. right.
        replace (cr + 1) with (S cr) by lia. split; [reflexivity|lia].
  - (* a frame that does not parse *)
    cbn. split; [done|]. left. split; [apply Forall2_rewrittenAt_refl|done].
  - (* close *)
    hook_simpl. destruct (ss !! k); cbn; (split; [done|]); left;
      (split; [apply Forall2_rewrittenAt_refl|done]).
  - (* transport error *)
    hook_simpl. destruct (ss !! k); cbn; (split; [done|]); left;
      (split; [apply Forall2_rewrittenAt_refl|done]).
  - (* tick *)
    hook_simpl. destruct tr; cbn -[lastIndex];
      [|split; [done|]; left; split; [apply Forall2_rewrittenAt_refl|done]].
    destruct q as [|ch q']; cbn -[lastIndex];
      [split; [done|]; left; split; [apply Forall2_rewrittenAt_refl|done]|].
    rewrite lookup_lastIndex.
    destruct (last ms) as [m|] eqn:Hl; cbn;
      [|split; [done|]; left; split; [apply Forall2_rewrittenAt_refl|done]].
    destruct (truthy (isStreaming m)); cbn;
      [|split; [done|]; left; split; [apply Forall2_rewrittenAt_refl|done]].
    split; [done|]. left. split; [|done].
    eapply (rewrittenAt_last _ _ ms m), proj2 in Hl; try exact Hl.
    repeat split. by left.
  - (* send *)
    hook_simpl.
    assert (∀ s1 : State, messages s1 = ms ++ [userMessage
        (uniqueId "user" (Date_now cr) (ic + 1) (Math_random rr)) p] →
       idCounter s1 = ic + 1 → clockReads s1 = S cr →
      cr ≤ clockReads s1
      ∧ ((Forall2 (rewrittenAt Date_now cr (clockReads s1)) ms (messages s1)
          ∧ idCounter s1 = ic)
         ∨ ∃ m p0, messages s1 = ms ++ [m]
             ∧ id m = uniqueId p0 (Date_now cr) (ic + 1) (Math_random rr)
             ∧ idCounter s1 = ic + 1 ∧ originalPrompt m = None
             ∧ endTime m = None
             ∧ (startTime m = None
                ∨ (startTime m = Some (Date_now (cr + 1))
                   ∧ cr + 1 < clockReads s1)))) as Hsend.
    { intros s1 H1 H2 H3. split; [lia|]. right. eexists _, _.
      split; [exact H1|]. repeat split; try done. by left. }
    destruct wr as [k|]; [|by apply Hsend].
    destruct (ss !! k) as [w|] eqn:Hk; [|by apply Hsend].
    case_bool_decide; [|by apply Hsend].
    cbn -[pretty]. rewrite Hk. by apply Hsend.
Qed.

Lemma step_precise s i :
  let s' := stepH s i in
  clockReads s ≤ clockReads s'
  ∧ ((Forall2 (rewrittenAt Date_now (clockReads s) (clockReads s'))
        (messages s) (messages s')
      ∧ idCounter s' = idCounter s)
     ∨ ∃ m p, messages s' = messages s ++ [m]
         ∧ id m = uniqueId p (Date_now (clockReads s)) (idCounter s + 1)
                    (Math_random (randomReads s))
         ∧ idCounter s' = idCounter s + 1
         ∧ originalPrompt m = None
         ∧ endTime m = None
         ∧ (startTime m = None
            ∨ (startTime m = Some (Date_now (clockReads s + 1))
               ∧ clockReads s + 1 < clockReads s'))).
Proof.
  cbn zeta. unfold step.
  destruct (typingEffect_counters (streamQueue s)
              (exec (dispatch Date_now Math_random i) s)) as (-> & _ & -> & _).
  rewrite (proj1 (typingEffect_frame _ _)).
  apply dispatch_precise.
Qed.

(** ** Start and end times *)

Lemma stamped_mono N N' m :
  N ≤ N' → stamped Date_now N m → stamped Date_now N' m.
Proof.
  intros Hle Hm a Ha. destruct (Hm a Ha) as (n & Hn & -> & Hend).
  exists n. split; [lia|]. split; [done|].
  intros b Hb. destruct (Hend b Hb) as (n' & ? & ? & ->).
  exists n'. repeat split; lia.
Qed.

Lemma stamped_rewrittenAt N N' m m' :
  N ≤ N' → rewrittenAt Date_now N N' m m' →
  stamped Date_now N m → stamped Date_now N' m'.
Proof.
  intros Hle (_ & Hst & _ & Hend) Hm a Ha. rewrite Hst in Ha.
  destruct (Hm a Ha) as (n & Hn & -> & Hold).
  exists n. split; [lia|]. split; [done|]. intros b Hb.
  destruct Hend as [He|[He|(k & ? & ? & He)]]; rewrite He in Hb.
  - destruct (Hold b Hb) as (n' & ? & ? & ->). exists n'. repeat split; lia.
  - done.
  - injection Hb as <-. exists k. repeat split; lia.
Qed.

Lemma step_stamped s i :
  Forall (stamped Date_now (clockReads s)) (messages s) →
  Forall (stamped Date_now (clockReads (stepH s i))) (messages (stepH s i)).
Proof.
  intros Hs.
  destruct (step_precise s i) as [Hle [[HF _]|(m & p & -> & _ & _ & _ & He & Hst)]].
  - induction HF as [|x y l l' Hxy _ IH]; [done|].
    apply Forall_cons in Hs as [? ?].
    constructor; [by eapply stamped_rewrittenAt|auto].
  - apply Forall_app. split.
    + eapply Forall_impl; [exact Hs|]. intros x. by apply stamped_mono.
    + constructor; [|done]. intros a Ha.
      destruct Hst as [Hn|[Hn Hlt]]; rewrite Hn in Ha; [done|].
      injection Ha as <-. eexists. split; [exact Hlt|]. split; [done|].
      intros b Hb. by rewrite He in Hb.
Qed.

Lemma run_stamped s inputs :
  Forall (stamped Date_now (clockReads s)) (messages s) →
  Forall (stamped Date_now (clockReads (runH s inputs))) (messages (runH s inputs)).
Proof.
  revert s. induction inputs as [|i inputs IH]; intros s Hs; [done|].
  cbn. by apply IH, step_stamped.
Qed.

(** X1. On a timeline the hook has built from the empty one, with a clock
    that never runs backwards, the start time of a message is never after its
    end time. *)
Theorem start_time_not_after_end_time inputs m a b :
  (∀ n n', n ≤ n' → (Date_now n ≤ Date_now n')%Z) →
  m ∈ messages (runH initialState inputs) →
  startTime m = Some a → endTime m = Some b → (a ≤ b)%Z.
Proof.
  intros Hmono Hin Ha Hb.
  assert (Forall (stamped Date_now (clockReads (runH initialState inputs)))
            (messages (runH initialState inputs))) as H.
  { apply run_stamped. constructor. }
  rewrite Forall_forall in H.
  destruct (H m Hin a Ha) as (n & _ & -> & Hend).
  destruct (Hend b Hb) as (n' & Hle & _ & ->). by apply Hmono.
Qed.

(** ** Ids *)

Lemma append_assoc (a b c : string) : (a +:+ b) +:+ c = a +:+ (b +:+ c).
Proof.
  induction a as [|x a IH]; [reflexivity|].
  change (String x ((a +:+ b) +:+ c) = String x (a +:+ (b +:+ c))).
  by rewrite IH.
Qed.

Lemma dashFree_append (a b : string) :
  dashFree a = true → dashFree b = true → dashFree (a +:+ b) = true.
Proof.
  induction a as [|x a IH]; [done|].
  intros Ha Hb. cbn in Ha. apply andb_prop in Ha as [Hx Ha].
  change (negb (Ascii.eqb x "-") && dashFree (a +:+ b) = true).
  rewrite Hx. cbn. auto.
Qed.

(** A string is cut at its last dash in one way only. *)
Lemma cut_at_last_dash (a1 a2 t1 t2 : string) :
  dashFree t1 = true → dashFree t2 = true →
  a1 +:+ "-" +:+ t1 = a2 +:+ "-" +:+ t2 → a1 = a2 ∧ t1 = t2.
Proof.
  intros H1 H2. revert a2. induction a1 as [|x a1 IH]; intros [|y a2].
  - change (String "-" t1 = String "-" t2 → "" = "" ∧ t1 = t2).
    by intros [= ->].
  - change (String "-" t1 = String y (a2 +:+ "-" +:+ t2) → "" = String y a2 ∧ t1 = t2).
    intros [= <- ->]. exfalso. revert H1. clear.
    induction a2 as [|z a2 IH]; [done|].
    change (dashFree (String z (a2 +:+ "-" +:+ t2)))
      with (negb (Ascii.eqb z "-") && dashFree (a2 +:+ "-" +:+ t2)).
    intros [_ ?]%andb_prop. auto.
  - change (String x (a1 +:+ "-" +:+ t1) = String "-" t2 → String x a1 = "" ∧ t1 = t2).
    intros [= -> <-]. exfalso. revert H2. clear.
    induction a1 as [|z a1 IH]; [done|].
    change (dashFree (String z (a1 +:+ "-" +:+ t1)))
      with (negb (Ascii.eqb z "-") && dashFree (a1 +:+ "-" +:+ t1)).
    intros [_ ?]%andb_prop. auto.
  - change (String x (a1 +:+ "-" +:+ t1) = String y (a2 +:+ "-" +:+ t2)
            → String x a1 = String y a2 ∧ t1 = t2).
    intros [= -> Heq]. destruct (IH _ Heq) as [-> ->]. done.
Qed.

Lemma dashFree_pretty_N_go x s :
  dashFree s = true → dashFree (pretty_N_go x s) = true.
Proof.
  revert s. induction (N.lt_wf_0 x) as [x _ IH]; intros s Hs.
  assert (x = 0 ∨ 0 < x)%N as [->|?] by lia.
  - by rewrite pretty_N_go_0.
  - rewrite pretty_N_go_step by done. apply IH.
    { by apply N.div_lt. }
    cbn. rewrite Hs, andb_true_r.
    unfold pretty_N_char. by repeat case_match.
Qed.

Lemma dashFree_pretty_nat (c : nat) : dashFree (pretty c) = true.
Proof.
  unfold pretty, pretty_nat, pretty, pretty_N.
  case_decide; [done|]. by apply dashFree_pretty_N_go.
Qed.

Lemma uniqueId_counter p now c r p' now' c' r' :
  dashFree r = true → dashFree r' = true →
  uniqueId p now c r = uniqueId p' now' c' r' → c = c'.
Proof.
  intros Hr Hr'.
  assert (∀ q (t : Z) (k : nat) u, uniqueId q t k u
            = ((q +:+ "-" +:+ pretty t) +:+ "-" +:+ pretty k) +:+ "-" +:+ u)
    as Hshape.
  { intros. unfold uniqueId. by rewrite !append_assoc. }
  rewrite !Hshape. intros [Heq _]%cut_at_last_dash; [|done..].
  apply cut_at_last_dash in Heq as [_ Heq]; auto using dashFree_pretty_nat.
  by apply (inj pretty) in Heq.
Qed.

Lemma rewrittenAt_ids lo hi l l' :
  Forall2 (rewrittenAt Date_now lo hi) l l' → id <$> l' = id <$> l.
Proof.
  induction 1 as [|m m' l l' (Hid & _) _ IH]; [done|]. cbn. by rewrite Hid, IH.
Qed.

Lemma numbered_NoDup N ids : numbered N ids → NoDup ids.
Proof.
  intros (cs & HF & Hnd & _). revert Hnd.
  induction HF as [|i c ids cs (p & now & r & -> & Hr) HF IH]; intros Hnd.
  { constructor. }
  apply NoDup_cons in Hnd as [Hc Hnd]. constructor; [|auto].
  intros Hin. apply list_elem_of_lookup in Hin as [k Hk].
  destruct (Forall2_lookup_l _ _ _ _ _ HF Hk)
    as (c' & Hk' & p' & now' & r' & Heq & Hr').
  apply uniqueId_counter in Heq; [|done..]. subst c'.
  apply Hc. by eapply list_elem_of_lookup_2.
Qed.

Lemma step_numbered s i :
  (∀ n, dashFree (Math_random n) = true) →
  numbered (idCounter s) (id <$> messages s) →
  numbered (idCounter (stepH s i)) (id <$> messages (stepH s i)).
Proof.
  intros Hrand (cs & HF & Hnd & Hle).
  destruct (step_precise s i) as [_ [[HR ->]|(m & p & -> & Hid & -> & _)]].
  - rewrite (rewrittenAt_ids _ _ _ _ HR). by exists cs.
  - exists (cs ++ [idCounter s + 1]). rewrite fmap_app. split; [|split].
    + apply Forall2_app; [done|]. constructor; [|constructor].
      cbn. rewrite Hid. eauto.
    + apply NoDup_app. split; [done|]. split; [|apply NoDup_singleton].
      intros c Hc ->%list_elem_of_singleton.
      rewrite Forall_forall in Hle. specialize (Hle _ Hc). lia.
    + apply Forall_app. split.
      * eapply Forall_impl; [exact Hle|]. intros c ?. cbn in *. lia.
      * by constructor.
Qed.

(** X2. When the random suffixes hold no dash, the messages of a timeline the
    hook has built from the empty one have pairwise different ids, whatever
    the clock, the agent names and the contents are. *)
Theorem timeline_ids_unique inputs :
  (∀ n, dashFree (Math_random n) = true) →
  NoDup (id <$> messages (runH initialState inputs)).
Proof.
  intros Hrand. apply (numbered_NoDup (idCounter (runH initialState inputs))).
  assert (∀ s, numbered (idCounter s) (id <$> messages s) →
               numbered (idCounter (runH s inputs)) (id <$> messages (runH s inputs)))
    as H.
  { induction inputs as [|i inputs IH]; intros s Hs; [done|].
    cbn. by apply IH, step_numbered. }
  apply H. exists []. repeat split; constructor.
Qed.

(** ** The dev panel, the interval and the sockets along a run *)

Lemma onmessage_frame s frame :
  let s' := exec (onmessageH frame) s in
  forwarded s' = forwarded s ++ decoded [Message frame]
  ∧ typingRef s' = typingRef s ∧ sockets s' = sockets s ∧ wsRef s' = wsRef s.
Proof.
  destruct frame as [e|]; [|cbn; by rewrite app_nil_r].
  destruct e as [x st0|x c|c|tag c|c ts|x task|c|x c|x sc|c];
    try (destruct s; done).
  - destruct s as [st ms q wr ss tr ic fw cr rr].
    hook_simpl. by destruct (_ && _).
  - cbn zeta. destruct (agent_output_exec s x c) as (ys & n & -> & _). done.
  - destruct s as [st ms q wr ss tr ic fw cr rr].
    hook_simpl. rewrite lookup_lastIndex.
    destruct (last ms) as [m|]; [|done].
    destruct (_ || _); [|done]. by destruct (truthy_number _).
  - destruct s as [st ms q wr ss tr ic fw cr rr].
    hook_simpl. rewrite lookup_lastIndex.
    destruct (last ms) as [m|]; [|done]. by destruct (_ && _).
  - destruct s as [st ms q wr ss tr ic fw cr rr].
    hook_simpl. rewrite lookup_lastIndex.
    destruct (last ms) as [m|]; [|done].
    destruct (truthy (isWaiting m)); [done|]. by destruct (_ || _).
Qed.

Lemma dispatch_forwarded s i :
  forwarded (exec (dispatch Date_now Math_random i) s)
  = forwarded s ++ decoded [i].
Proof.
  destruct i as [k|frame|k|k| |p].
  - destruct s as [st ms q wr ss tr ic fw cr rr]. hook_simpl.
    rewrite app_nil_r.
    destruct (ss !! k) as [w|]; [|done]. case_bool_decide; [|done]. cbn.
    destruct (truthy_ostring _); [|done]. cbn. by destruct (_ !! k).
  - apply onmessage_frame.
  - destruct s as [st ms q wr ss tr ic fw cr rr]. hook_simpl.
    rewrite app_nil_r. by destruct (ss !! k).
  - destruct s as [st ms q wr ss tr ic fw cr rr]. hook_simpl.
    rewrite app_nil_r. by destruct (ss !! k).
  - destruct s as [st ms q wr ss tr ic fw cr rr]. hook_simpl.
    rewrite app_nil_r. destruct tr; [|done]. destruct q; [done|].
    cbn -[lastIndex]. rewrite lookup_lastIndex.
    destruct (last ms) as [m|]; [|done]. by destruct (truthy _).
  - destruct s as [st ms q wr ss tr ic fw cr rr]. hook_simpl.
    rewrite app_nil_r. destruct wr as [k|]; [|done].
    destruct (ss !! k) as [w|] eqn:Hk; [|done]. case_bool_decide; [|done].
    cbn -[pretty]. by rewrite Hk.
Qed.

Lemma decoded_cons i inputs : decoded (i :: inputs) = decoded [i] ++ decoded inputs.
Proof. unfold decoded. cbn. by destruct i as [|[|]| | | |]. Qed.

(** X3. Every frame that decodes is handed to [onEvent] exactly once, as it
    is and in arrival order, whether or not the switch acts on it; frames
    that do not parse, ticks, sends and connection events hand over nothing. *)
Theorem every_decoded_event_is_forwarded s inputs :
  forwarded (runH s inputs) = forwarded s ++ decoded inputs.
Proof.
  revert s. induction inputs as [|i inputs IH]; intros s.
  { by rewrite app_nil_r. }
  cbn [run foldl]. fold (runH (stepH s i) inputs). rewrite IH.
  unfold step. rewrite (proj1 (proj2 (typingEffect_counters _ _))).
  rewrite dispatch_forwarded, (decoded_cons i inputs). by rewrite app_assoc.
Qed.

Lemma typingEffect_same deps s :
  streamQueue s = deps → exec (typingEffect deps) s = s.
Proof.
  intros <-. hook_simpl. by rewrite bool_decide_eq_true_2.
Qed.

Lemma dispatch_typingRef s i :
  let s' := exec (dispatch Date_now Math_random i) s in
  typingRef s' = typingRef s ∨ (streamQueue s' = "" ∧ typingRef s' = false).
Proof.
  destruct i as [k|frame|k|k| |p].
  - left. destruct s as [st ms q wr ss tr ic fw cr rr]. hook_simpl.
    destruct (ss !! k) as [w|]; [|done]. case_bool_decide; [|done]. cbn.
    destruct (truthy_ostring _); [|done]. cbn. by destruct (_ !! k).
  - left. apply onmessage_frame.
  - left. destruct s as [st ms q wr ss tr ic fw cr rr]. hook_simpl.
    by destruct (ss !! k).
  - left. destruct s as [st ms q wr ss tr ic fw cr rr]. hook_simpl.
    by destruct (ss !! k).
  - destruct s as [st ms q wr ss tr ic fw cr rr]. hook_simpl.
    destruct tr; [|by left]. destruct q; [by right|]. left.
    cbn -[lastIndex]. rewrite lookup_lastIndex.
    destruct (last ms) as [m|]; [|done]. by destruct (truthy _).
  - left. destruct s as [st ms q wr ss tr ic fw cr rr]. hook_simpl.
    destruct wr as [k|]; [|done].
    destruct (ss !! k) as [w|] eqn:Hk; [|done]. case_bool_decide; [|done].
    cbn -[pretty]. by rewrite Hk.
Qed.

Lemma step_interval s i :
  typingRef s = negb (bool_decide (streamQueue s = "")) →
  typingRef (stepH s i) = negb (bool_decide (streamQueue (stepH s i) = "")).
Proof.
  intros Hs. unfold step.
  set (s1 := exec (dispatch Date_now Math_random i) s).
  destruct (decide (streamQueue s1 = streamQueue s)) as [Heq|Hne].
  - rewrite typingEffect_same by done. rewrite Heq.
    destruct (dispatch_typingRef s i) as [H|[Hq H]]; fold s1 in H |- *.
    + by rewrite H.
    + fold s1 in Hq. rewrite H, <- Heq, Hq. done.
  - rewrite (typingEffect_typingRef _ _ Hne).
    by rewrite (proj1 (proj2 (typingEffect_frame _ _))).
Qed.

(** X4. Along any run from the initial state an interval is installed exactly
    when the reveal queue is not empty: enqueueing on an empty queue starts
    the ticks, and the tick or the final answer that empties the queue stops
    them. *)
Theorem interval_installed_iff_queue_nonempty inputs :
  typingRef (runH initialState inputs)
  = negb (bool_decide (streamQueue (runH initialState inputs) = "")).
Proof.
  assert (∀ s, typingRef s = negb (bool_decide (streamQueue s = "")) →
               typingRef (runH s inputs)
               = negb (bool_decide (streamQueue (runH s inputs) = ""))) as H.
  { induction inputs as [|i inputs IH]; intros s Hs; [done|].
    cbn. by apply IH, step_interval. }
  by apply H.
Qed.

(** ** Frames the switch ignores *)

Lemma step_silent s i :
  silent i = true →
  stepH s i = exec (putForwarded (forwarded s ++ decoded [i])) s.
Proof.
  intros Hi. unfold step.
  assert (exec (dispatch Date_now Math_random i) s
          = exec (putForwarded (forwarded s ++ decoded [i])) s) as ->.
  { destruct s as [st ms q wr ss tr ic fw cr rr].
    destruct i as [k|[[]|]|k|k| |p]; try discriminate Hi; cbn;
      by rewrite ?app_nil_r. }
  by apply typingEffect_same.
Qed.

(** X5. Frames that do not parse and the events shown in the dev panel only
    ([thoughts_and_tasks], [validation_score], [loop_retry]) change nothing of
    the hook but the dev panel's log: after any number of them the timeline,
    the reveal queue, the interval, the status, the sockets and the counters
    are as before. *)
Theorem silent_frames_change_only_the_log s inputs :
  Forall (fun i => silent i = true) inputs →
  runH s inputs = exec (putForwarded (forwarded s ++ decoded inputs)) s.
Proof.
  revert s. induction inputs as [|i inputs IH]; intros s Hall.
  { destruct s. cbn. by rewrite app_nil_r. }
  apply Forall_cons in Hall as [Hi Hall].
  cbn [run foldl]. fold (runH (stepH s i) inputs).
  rewrite (IH _ Hall), (step_silent s i Hi), (decoded_cons i inputs).
  destruct s. cbn. by rewrite app_assoc.
Qed.

(** ** The simplifier's result *)

Lemma simplification_complete_frame s a c :
  let s' := exec (onmessageH (Some (SimplificationCompleteEvent a c))) s in
  streamQueue s' = streamQueue s ∧ status s' = status s.
Proof.
  destruct s as [st ms q wr ss tr ic fw cr rr].
  hook_simpl. rewrite lookup_lastIndex.
  destruct (last ms) as [m|]; [|done]. by destruct (_ && _).
Qed.

(** X6. A [simplification_complete] event, whatever agent name it carries,
    leaves the timeline ending in a message of Nova with the event's content
    that is not waiting: the last message itself, completed in place with an
    end time, when it was a waiting message of Nova, and a new message
    otherwise.  The messages before it, the reveal queue and the status stay
    as they are. *)
Theorem simplification_complete_settles s a c :
  let s' := stepH s (Message (Some (SimplificationCompleteEvent a c))) in
  (∃ k m, messages s' = k ++ [m]
          ∧ content m = c ∧ agent m = Some "Nova"
          ∧ truthy (isWaiting m) = false
          ∧ (k = messages s ∧ endTime m = None ∧ startTime m = None
             ∨ ∃ m0, messages s = k ++ [m0]
                     ∧ truthy (isWaiting m0) = true ∧ agent m0 = Some "Nova"
                     ∧ id m = id m0 ∧ startTime m = startTime m0
                     ∧ is_Some (endTime m)))
  ∧ (∀ m0, last (messages s) = Some m0 →
       truthy (isWaiting m0) = true → agent m0 = Some "Nova" →
       length (messages s') = length (messages s))
  ∧ streamQueue s' = streamQueue s ∧ status s' = status s.
Proof.
  intros s'.
  destruct (step_Message s (Some (SimplificationCompleteEvent a c)))
    as (Hm & Hq & Hst). fold s' in Hm, Hq, Hst.
  destruct (simplification_complete_frame s a c) as [Hq' Hst'].
  pose proof (simplification_complete_messages s a c) as H. cbn zeta in H.
  rewrite <- Hm in H.
  assert (agentNameMap !! "Simplifier Agent" = Some "Nova") as Hnova by done.
  rewrite Hnova in H.
  split; [|split; [|split; congruence]].
  - destruct (last (messages s)) as [m0|] eqn:Hl.
    + destruct (truthy (isWaiting m0)) eqn:Hw; cbn in H.
      * case_bool_decide as Ha.
        -- destruct H as [t H]. apply last_Some in Hl as [k Hk].
           rewrite Hk, insert_lastIndex_snoc in H.
           exists k, (completed m0 c t).
           split; [done|]. split; [done|]. split; [done|]. split; [done|].
           right. exists m0. split_and!; done.
        -- destruct H as [i H]. exists (messages s), (simplificationMessage i c).
           split_and!; try done. by left.
      * destruct H as [i H]. exists (messages s), (simplificationMessage i c).
        split_and!; try done. by left.
    + destruct H as [i H]. exists (messages s), (simplificationMessage i c).
      split_and!; try done. by left.
  - intros m0 Hl Hw Ha. rewrite Hl, Hw, bool_decide_eq_true_2 in H by done.
    destruct H as [t ->]. by rewrite length_insert.
Qed.

(** ** Ticks and the queue *)

(** X7. While the last message is not flagged streaming, or the timeline is
    empty, the interval callback still takes one character off the queue at
    each firing, and the timeline does not change: such characters are never
    shown. *)
Theorem ticks_discard_without_streaming_message n s :
  (∀ m, last (messages s) = Some m → truthy (isStreaming m) = false) →
  messages (ticks n s) = messages s
  ∧ String.length (streamQueue (ticks n s)) = String.length (streamQueue s) - n.
Proof.
  revert s. induction n as [|n IH]; intros s Hs.
  { cbn. split; [done|lia]. }
  cbn [ticks].
  assert (messages (exec tick s) = messages s) as Hm.
  { rewrite tick_messages. destruct (streamQueue s); [done|].
    destruct (last (messages s)) as [m|] eqn:Hl; [|done].
    by rewrite (Hs m eq_refl). }
  destruct (IH (exec tick s)) as [H1 H2].
  { by rewrite Hm. }
  rewrite H1, H2, Hm, tick_streamQueue. split; [done|].
  destruct (streamQueue s); cbn; lia.
Qed.

(** X8. While the last message is flagged streaming, ticks move text and lose
    none: after any number of ticks the content of the last message followed
    by what is left in the queue is the content it had followed by the queue
    there was, and the other messages are unchanged. *)
Theorem ticks_conserve_streamed_text n s k m :
  messages s = k ++ [m] → truthy (isStreaming m) = true →
  ∃ m', messages (ticks n s) = k ++ [m']
        ∧ content m' +:+ streamQueue (ticks n s) = content m +:+ streamQueue s
        ∧ String.length (streamQueue (ticks n s))
          = String.length (streamQueue s) - n
        ∧ id m' = id m ∧ isStreaming m' = isStreaming m.
Proof.
  revert s m. induction n as [|n IH]; intros s m Hm Hs.
  { exists m. cbn. repeat split; try done. lia. }
  cbn [ticks]. destruct (streamQueue s) as [|ch q] eqn:Hq.
  - destruct (IH (exec tick s) m) as (m' & H1 & H2 & H3 & H4 & H5).
    { by rewrite tick_messages, Hq. }
    { done. }
    exists m'. rewrite tick_streamQueue, Hq in H2, H3.
    repeat split; try done.
  - destruct (IH (exec tick s) (revealed m ch)) as (m' & H1 & H2 & H3 & H4 & H5).
    { rewrite tick_messages, Hq, Hm, last_snoc, Hs. by rewrite slice_snoc. }
    { done. }
    exists m'. rewrite tick_streamQueue, Hq in H2, H3.
    repeat split; try done.
    rewrite H2. cbn. apply append_snoc.
Qed.

(** ** The sockets *)

Lemma onopen_exec s k :
  exec (onopen k) s =
  match sockets s !! k with
  | Some w =>
      if bool_decide (readyState w = CONNECTING)
      then exec (setStatus streaming)
             (exec (putSockets
                (<[k := mkWebSocket OPEN (initialPrompt w)
                          (sent w ++ if truthy_ostring (initialPrompt w)
                                     then [default "" (initialPrompt w)]
                                     else [])]> (sockets s))) s)
      else s
  | None => s
  end.
Proof.
  destruct s as [st ms q wr ss tr ic fw cr rr]. hook_simpl.
  destruct (ss !! k) as [w|] eqn:Hk; [|done].
  case_bool_decide; [|done]. cbn.
  assert (k < length ss) as Hlt by (by eapply lookup_lt_Some).
  destruct (truthy_ostring (initialPrompt w)); cbn.
  - rewrite list_lookup_insert_eq by done. cbn.
    by rewrite list_insert_insert_eq.
  - by rewrite app_nil_r.
Qed.

Lemma onclose_exec s k :
  exec (onclose k) s =
  match sockets s !! k with
  | Some w =>
      exec (setStatus idle)
        (exec (putSockets
           (<[k := mkWebSocket CLOSED (initialPrompt w) (sent w)]> (sockets s))) s)
  | None => s
  end.
Proof.
  destruct s as [st ms q wr ss tr ic fw cr rr]. hook_simpl.
  by destruct (ss !! k).
Qed.

Lemma onerror_exec s k :
  exec (onerror k) s =
  match sockets s !! k with
  | Some _ => exec (setStatus error) s
  | None => s
  end.
Proof.
  destruct s as [st ms q wr ss tr ic fw cr rr]. hook_simpl.
  by destruct (ss !! k).
Qed.

Lemma onmessage_status s frame :
  status (exec (onmessageH frame) s)
  = match frame with
    | Some (ErrorEvent _ _) => error
    | _ => status s
    end.
Proof.
  destruct frame as [e|]; [|done].
  destruct e as [x st0|x c|c|tag c|c ts|x task|c|x c|x sc|c];
    try (destruct s; done).
  - destruct s as [st ms q wr ss tr ic fw cr rr].
    hook_simpl. by destruct (_ && _).
  - destruct (agent_output_exec s x c) as (ys & n & -> & _). done.
  - destruct s as [st ms q wr ss tr ic fw cr rr].
    hook_simpl. rewrite lookup_lastIndex.
    destruct (last ms) as [m|]; [|done].
    destruct (_ || _); [|done]. by destruct (truthy_number _).
  - destruct s as [st ms q wr ss tr ic fw cr rr].
    hook_simpl. rewrite lookup_lastIndex.
    destruct (last ms) as [m|]; [|done]. by destruct (_ && _).
  - destruct s as [st ms q wr ss tr ic fw cr rr].
    hook_simpl. rewrite lookup_lastIndex.
    destruct (last ms) as [m|]; [|done].
    destruct (truthy (isWaiting m)); [done|]. by destruct (_ || _).
Qed.

Lemma tick_sockets s :
  let s' := exec (dispatch Date_now Math_random Tick) s in
  sockets s' = sockets s ∧ wsRef s' = wsRef s ∧ status s' = status s.
Proof.
  destruct s as [st ms q wr ss tr ic fw cr rr]. hook_simpl.
  destruct tr; [|done]. destruct q; [done|].
  cbn -[lastIndex]. rewrite lookup_lastIndex.
  destruct (last ms) as [m|]; [|done]. by destruct (truthy _).
Qed.

Lemma step_sockets s i :
  let s' := stepH s i in
  let s1 := exec (dispatch Date_now Math_random i) s in
  sockets s' = sockets s1 ∧ wsRef s' = wsRef s1 ∧ status s' = status s1.
Proof.
  cbn zeta. unfold step.
  destruct (typingEffect_frame (streamQueue s)
              (exec (dispatch Date_now Math_random i) s)) as (_ & _ & ? & ? & ?).
  done.
Qed.

Lemma sum_list_insert (f : WebSocket → nat) l k w w' :
  l !! k = Some w →
  sum_list (f <$> <[k := w']> l) + f w = sum_list (f <$> l) + f w'.
Proof.
  intros Hk. assert (k < length l) by (by eapply lookup_lt_Some).
  rewrite insert_take_drop by done.
  rewrite <- (take_drop_middle l k w Hk) at 3.
  rewrite !fmap_app, !fmap_cons, !sum_list_with_app. cbn. lia.
Qed.

Lemma Forall_insert_socket (P : WebSocket → Prop) l k w' :
  Forall P l → P w' → Forall P (<[k := w']> l).
Proof.
  intros Hl Hw. destruct (decide (k < length l)).
  - rewrite insert_take_drop by done. apply Forall_app. split.
    + by apply Forall_take.
    + constructor; [done|]. by apply Forall_drop.
  - rewrite list_insert_ge by lia. done.
Qed.

Lemma prompts_snoc inputs i : prompts (inputs ++ [i]) = prompts inputs ++ prompts [i].
Proof. unfold prompts. by rewrite omap_app. Qed.

Lemma run_snoc s inputs i : runH s (inputs ++ [i]) = stepH (runH s inputs) i.
Proof. unfold run. by rewrite foldl_app. Qed.

Lemma step_transmissions s i ps :
  Forall (fun w => Forall (fun p => p ∈ ps) (sent w)
                   ∧ ∀ p, initialPrompt w = Some p → p ∈ ps) (sockets s) →
  transmitted (sockets s) + pending (sockets s) ≤ length ps →
  let s' := stepH s i in
  let ps' := ps ++ prompts [i] in
  Forall (fun w => Forall (fun p => p ∈ ps') (sent w)
                   ∧ ∀ p, initialPrompt w = Some p → p ∈ ps') (sockets s')
  ∧ transmitted (sockets s') + pending (sockets s') ≤ length ps'.
Proof.
  intros Hall Hle. cbn zeta.
  rewrite (proj1 (step_sockets s i)).
  unfold transmitted, pending in *.
  destruct i as [k|frame|k|k| |p]; cbn [dispatch].
  all: try (change (prompts [_]) with (@nil string); rewrite app_nil_r).
  - (* open *)
    rewrite onopen_exec. destruct (sockets s !! k) as [w|] eqn:Hk.
    2:{ split; [done|lia]. }
    case_bool_decide as Hc.
    2:{ split; [done|lia]. }
    cbn. rewrite Forall_lookup in Hall. destruct (Hall k w Hk) as [Hs Hi].
    rewrite <- Forall_lookup in Hall. split.
    + apply Forall_insert_socket; [done|]. cbn. split; [|done].
      apply Forall_app. split; [done|].
      destruct (initialPrompt w) as [p|]; cbn; [|done].
      destruct (truthy_string p); [|done]. constructor; [|done]. by apply Hi.
    + pose proof (sum_list_insert (fun w => length (sent w)) _ k w
        (mkWebSocket OPEN (initialPrompt w)
           (sent w ++ if truthy_ostring (initialPrompt w)
                      then [default "" (initialPrompt w)] else [])) Hk) as H1.
      pose proof (sum_list_insert
        (fun w => if bool_decide (readyState w = CONNECTING)
                     && truthy_ostring (initialPrompt w) then 1 else 0) _ k w
        (mkWebSocket OPEN (initialPrompt w)
           (sent w ++ if truthy_ostring (initialPrompt w)
                      then [default "" (initialPrompt w)] else [])) Hk) as H2.
      cbn [readyState initialPrompt sent] in H1, H2. rewrite length_app in H1.
      rewrite (bool_decide_eq_true_2 (readyState w = CONNECTING)) in H2 by done.
      rewrite (bool_decide_eq_false_2 (OPEN = CONNECTING)) in H2 by done.
      cbn [andb] in H2.
      destruct (truthy_ostring (initialPrompt w)); cbn [length app andb] in H1, H2; lia.
  - (* a frame *)
    rewrite (proj1 (proj2 (proj2 (onmessage_frame s frame)))).
    split; [done|lia].
  - (* close *)
    rewrite onclose_exec. destruct (sockets s !! k) as [w|] eqn:Hk.
    2:{ split; [done|lia]. }
    cbn. rewrite Forall_lookup in Hall. destruct (Hall k w Hk) as [Hs Hi].
    rewrite <- Forall_lookup in Hall. split.
    + by apply Forall_insert_socket.
    + pose proof (sum_list_insert (fun w => length (sent w)) _ k w
        (mkWebSocket CLOSED (initialPrompt w) (sent w)) Hk) as H1.
      pose proof (sum_list_insert
        (fun w => if bool_decide (readyState w = CONNECTING)
                     && truthy_ostring (initialPrompt w) then 1 else 0) _ k w
        (mkWebSocket CLOSED (initialPrompt w) (sent w)) Hk) as H2.
      cbn [readyState initialPrompt sent] in H1, H2.
      rewrite (bool_decide_eq_false_2 (CLOSED = CONNECTING)) in H2 by done.
      cbn [andb] in H2.
      destruct (bool_decide (readyState w = CONNECTING)
                && truthy_ostring (initialPrompt w)); lia.
  - (* transport error *)
    rewrite onerror_exec.
    destruct (sockets s !! k);
      [change (sockets (exec (setStatus error) s)) with (sockets s)|];
      (split; [done|lia]).
  - (* tick *)
    pose proof (proj1 (tick_sockets s)) as Ht. cbn [dispatch] in Ht.
    rewrite Ht. split; [done|lia].
  - (* send *)
    destruct (sendMessage_channel s p) as [_ Hch].
    cbn [prompts omap]. cbn. rewrite length_app. cbn.
    assert (Hweak' : ∀ ss, Forall (fun w => Forall (fun p => p ∈ ps) (sent w)
                   ∧ ∀ p, initialPrompt w = Some p → p ∈ ps) ss →
     Forall (fun w => Forall (fun q => q ∈ ps ++ [p]) (sent w)
                   ∧ ∀ q, initialPrompt w = Some q → q ∈ ps ++ [p]) ss).
    { intros ss Hss. eapply Forall_impl; [exact Hss|]. intros w [H1 H2]. split.
      - eapply Forall_impl; [exact H1|]. intros q ?. apply elem_of_app. by left.
      - intros q ?. apply elem_of_app. left. by apply H2. }
    assert (p ∈ ps ++ [p]) as Hp.
    { apply elem_of_app. right. by apply list_elem_of_singleton. }
    destruct (openChannel s) as [k|].
    + destruct Hch as (w & Hk & -> & _). split.
      * rewrite Forall_lookup in Hall. destruct (Hall k w Hk) as [Hs Hi].
        rewrite <- Forall_lookup in Hall.
        apply Forall_insert_socket; [by apply Hweak'|]. cbn. split.
        -- apply Forall_app. split; [|by constructor].
           eapply Forall_impl; [exact Hs|]. intros q ?. apply elem_of_app. by left.
        -- intros q Hq. apply elem_of_app. left. by apply Hi.
      * pose proof (sum_list_insert (fun w => length (sent w)) _ k w
          (mkWebSocket OPEN (initialPrompt w) (sent w ++ [p])) Hk) as H1.
        pose proof (sum_list_insert
          (fun w => if bool_decide (readyState w = CONNECTING)
                       && truthy_ostring (initialPrompt w) then 1 else 0) _ k w
          (mkWebSocket OPEN (initialPrompt w) (sent w ++ [p])) Hk) as H2.
        cbn [readyState initialPrompt sent] in H1, H2. rewrite length_app in H1. cbn [length] in H1.
        rewrite (bool_decide_eq_false_2 (OPEN = CONNECTING)) in H2 by done.
        cbn [andb] in H2.
        destruct (bool_decide (readyState w = CONNECTING)
                  && truthy_ostring (initialPrompt w)); lia.
    + destruct Hch as (-> & _). split.
      * apply Forall_app. split; [by apply Hweak'|].
        constructor; [|done]. cbn. split; [done|]. by intros q [= <-].
      * rewrite !fmap_app, !sum_list_with_app. cbn.
        destruct (bool_decide (CONNECTING = CONNECTING) && truthy_string p); lia.
Qed.

(** X9. Along any run from the initial state the hook transmits nothing but
    prompts the user has sent, and at most as many frames as there were
    sends: a prompt goes out at once through the open channel or waits as the
    initial prompt of the connection its send has started, never both. *)
Theorem only_user_prompts_are_transmitted inputs :
  let s := runH initialState inputs in
  Forall (fun w => Forall (fun p => p ∈ prompts inputs) (sent w)
                   ∧ ∀ p, initialPrompt w = Some p → p ∈ prompts inputs)
    (sockets s)
  ∧ transmitted (sockets s) + pending (sockets s) ≤ length (prompts inputs).
Proof.
  cbn zeta. induction inputs as [|i inputs IH] using rev_ind.
  { split; [constructor|]. cbn. lia. }
  rewrite run_snoc, prompts_snoc. destruct IH as [H1 H2].
  by apply step_transmissions.
Qed.

Lemma step_connecting s i :
  (status s = connecting →
   ∃ k w, wsRef s = Some k ∧ sockets s !! k = Some w ∧ readyState w = CONNECTING) →
  status (stepH s i) = connecting →
  ∃ k w, wsRef (stepH s i) = Some k ∧ sockets (stepH s i) !! k = Some w
         ∧ readyState w = CONNECTING.
Proof.
  intros Hs. destruct (step_sockets s i) as (-> & -> & ->).
  destruct i as [k|frame|k|k| |p]; cbn [dispatch].
  - rewrite onopen_exec. destruct (sockets s !! k) as [w|]; [|done].
    by case_bool_decide.
  - rewrite onmessage_status.
    destruct (onmessage_frame s frame) as (_ & _ & -> & ->).
    by destruct frame as [[]|].
  - rewrite onclose_exec. by destruct (sockets s !! k).
  - rewrite onerror_exec. by destruct (sockets s !! k).
  - pose proof (tick_sockets s) as (Ht1 & Ht2 & Ht3). cbn [dispatch] in Ht1, Ht2, Ht3.
    by rewrite Ht1, Ht2, Ht3.
  - destruct (sendMessage_channel s p) as [_ Hch].
    destruct (openChannel s) as [k|] eqn:Ho.
    + destruct Hch as (w & Hk & -> & -> & ->). intros Hc.
      destruct (Hs Hc) as (k' & w' & Hr & Hk' & Hw').
      exfalso. revert Ho. unfold openChannel. rewrite Hr, Hk', Hw'.
      by rewrite bool_decide_eq_false_2.
    + destruct Hch as (-> & -> & _). intros _.
      exists (length (sockets s)), (mkWebSocket CONNECTING (Some p) []).
      split; [done|]. split; [|done].
      by rewrite lookup_app_r, Nat.sub_diag.
Qed.

(** X10. Along any run from the initial state, while the status is
    [connecting] the socket [wsRef] points to exists and has not opened yet:
    the status is set to [connecting] by a send that starts a connection and
    by nothing else, and every event of a socket moves it on. *)
Theorem connecting_status_has_connecting_socket inputs :
  status (runH initialState inputs) = connecting →
  ∃ k w, wsRef (runH initialState inputs) = Some k
         ∧ sockets (runH initialState inputs) !! k = Some w
         ∧ readyState w = CONNECTING.
Proof.
  induction inputs as [|i inputs IH] using rev_ind; [done|].
  rewrite run_snoc. by apply step_connecting.
Qed.

Lemma step_transport s i :
  transport i = true →
  let s' := stepH s i in
  messages s' = messages s ∧ streamQueue s' = streamQueue s
  ∧ typingRef s' = typingRef s ∧ forwarded s' = forwarded s
  ∧ idCounter s' = idCounter s.
Proof.
  intros Hi. cbn zeta. unfold step.
  assert (let s1 := exec (dispatch Date_now Math_random i) s in
          messages s1 = messages s ∧ streamQueue s1 = streamQueue s
          ∧ typingRef s1 = typingRef s ∧ forwarded s1 = forwarded s
          ∧ idCounter s1 = idCounter s) as (H1 & H2 & H3 & H4 & H5).
  { destruct i as [k|frame|k|k| |p]; try discriminate Hi; cbn [dispatch].
    - rewrite onopen_exec. destruct (sockets s !! k); [|done].
      by case_bool_decide.
    - rewrite onclose_exec. by destruct (sockets s !! k).
    - rewrite onerror_exec. by destruct (sockets s !! k). }
  rewrite typingEffect_same by done. done.
Qed.

(** X11. The events of the connection (open, close, transport error) never
    touch the conversation: after any number of them the timeline, the reveal
    queue, the interval, the dev panel's log and the id counter are as
    before, so that what was shown stays shown when the channel closes or
    fails. *)
Theorem transport_events_leave_the_conversation s inputs :
  Forall (fun i => transport i = true) inputs →
  let s' := runH s inputs in
  messages s' = messages s ∧ streamQueue s' = streamQueue s
  ∧ typingRef s' = typingRef s ∧ forwarded s' = forwarded s
  ∧ idCounter s' = idCounter s.
Proof.
  cbn zeta. revert s. induction inputs as [|i inputs IH]; intros s Hall; [done|].
  apply Forall_cons in Hall as [Hi Hall].
  cbn [run foldl]. fold (runH (stepH s i) inputs).
  destruct (IH (stepH s i) Hall) as (-> & -> & -> & -> & ->).
  by apply step_transport.
Qed.

(** ** The composer *)

Lemma hasText_trimStart d : Composer.hasText (Composer.trimStart d) = Composer.hasText d.
Proof.
  induction d as [|a d IH]; [done|]. cbn.
  destruct (Composer.isWhiteSpace a) eqn:Ha; [done|]. cbn. by rewrite Ha.
Qed.

Lemma truthy_trimEnd t : truthy_string (Composer.trimEnd t) = Composer.hasText t.
Proof.
  induction t as [|a t IH]; [done|]. cbn.
  destruct (Composer.trimEnd t) as [|b t0]; cbn in IH; rewrite <- IH.
  - by destruct (Composer.isWhiteSpace a).
  - cbn. by rewrite orb_true_r.
Qed.

Lemma truthy_trim d : truthy_string (Composer.trim d) = Composer.hasText d.
Proof. unfold Composer.trim. by rewrite truthy_trimEnd, hasText_trimStart. Qed.

(** X12. The composer hands a draft to [sendMessage] exactly when the draft
    holds a code unit that is not white space, and never otherwise, whether
    by the button or by Enter without shift.  A draft it hands over is not
    empty: the timeline gets the user message with the draft as it was typed,
    the draft is cleared, and the prompt goes out, through the open channel
    at once or, on a new connection, as soon as it opens. *)
Theorem composer_sends_only_text s draft key shiftKey :
  let r := Composer.handleSendMessage Date_now Math_random draft s in
  (Composer.hasText draft = false → r = (draft, s))
  ∧ (Composer.hasText draft = true →
     r.1 = "" ∧ r.2 = exec (sendMessage Date_now Math_random draft) s
     ∧ truthy_string draft = true
     ∧ (∃ u, messages r.2 = messages s ++ [u]
             ∧ isUser u = true ∧ content u = draft)
     ∧ match openChannel s with
       | Some k =>
           ∃ w, sockets s !! k = Some w
                ∧ sockets r.2 !! k
                  = Some (mkWebSocket OPEN (initialPrompt w) (sent w ++ [draft]))
       | None =>
           sockets (stepH r.2 (Open (length (sockets s)))) !! length (sockets s)
           = Some (mkWebSocket OPEN (Some draft) [draft])
       end)
  ∧ Composer.sendDisabled draft = negb (Composer.hasText draft)
  ∧ Composer.handleKeyPress Date_now Math_random key shiftKey draft s
    = if bool_decide (key = "Enter") && negb shiftKey then r else (draft, s).
Proof.
  cbn zeta. unfold Composer.handleSendMessage, Composer.handleKeyPress,
    Composer.handleSendMessage, Composer.sendDisabled.
  rewrite truthy_trim. split; [by intros ->|]. split; [|split].
  - intros Ht. rewrite Ht.
    assert (truthy_string draft = true) as Hd by (by destruct draft).
    assert ((sendMessage Date_now Math_random draft ;; ret "") s
            = ("", exec (sendMessage Date_now Math_random draft) s)) as Hr.
    { unfold bind, exec, ret.
      by destruct (sendMessage Date_now Math_random draft s) as [[] ?]. }
    rewrite Hr. cbn [fst snd]. split; [done|]. split; [done|]. split; [done|].
    destruct (sendMessage_messages s draft) as [i Hi].
    destruct (sendMessage_channel s draft) as [_ Hch].
    split.
    { exists (userMessage i draft). by rewrite Hi. }
    destruct (openChannel s) as [k|].
    + destruct Hch as (w & Hk & Hsock & _). exists w. split; [done|].
      rewrite Hsock. apply list_lookup_insert_eq. by eapply lookup_lt_Some.
    + destruct Hch as (Hsock & _).
      rewrite (proj1 (step_sockets _ _)). cbn [dispatch].
      apply onopen_fresh_socket; [|done].
      by rewrite Hsock, lookup_app_r, Nat.sub_diag.
  - done.
  - by destruct (_ && _).
Qed.

(** ** The bubbles of the chat window *)

Lemma step_original_prompt s i :
  Forall (fun m => originalPrompt m = None) (messages s) →
  Forall (fun m => originalPrompt m = None) (messages (stepH s i)).
Proof.
  intros Hs. destruct (step_precise s i) as [_ [[Hrw _]|(m & p & -> & _ & _ & Hm & _)]].
  - revert Hs. induction Hrw as [|x y l k (_ & _ & Hxy & _) _ IH]; [done|].
    intros [Hx Hl]%Forall_cons. apply Forall_cons. split; [congruence|auto].
  - apply Forall_app. split; [done|]. by apply Forall_singleton.
Qed.

Lemma run_original_prompt inputs :
  Forall (fun m => originalPrompt m = None) (messages (runH initialState inputs)).
Proof.
  induction inputs as [|i inputs IH] using rev_ind; [by apply Forall_nil|].
  rewrite run_snoc. by apply step_original_prompt.
Qed.

(** X13. No message the hook builds carries an original prompt, so no
    bubble of the chat window offers a retry, with or without an [onRetry]
    handler: the handler makes no difference to what is shown.  The window
    always shows at least one bubble, the greeting when the timeline is
    empty. *)
Theorem chat_window_never_offers_retry inputs onRetry :
  let ms := messages (runH initialState inputs) in
  Forall (fun m => originalPrompt m = None) ms
  ∧ MessageBubble.renderContent onRetry <$> MessageBubble.displayMessages ms
    = MessageBubble.bubbles ms
  ∧ (∀ text p, MessageBubble.ErrorBody text (Some p) ∉ MessageBubble.bubbles ms)
  ∧ 0 < length (MessageBubble.bubbles ms)
  ∧ (ms = [] →
     MessageBubble.bubbles ms
     = [MessageBubble.ContentBody "Hello! How can I help you?" false]).
Proof.
  cbn zeta. pose proof (run_original_prompt inputs) as Hms.
  set (ms := messages (runH initialState inputs)) in *.
  assert (Forall (fun m => originalPrompt m = None) (MessageBubble.displayMessages ms))
    as Hd.
  { unfold MessageBubble.displayMessages. destruct (0 <? length ms); [done|].
    by apply Forall_singleton. }
  split_and!.
  - done.
  - unfold MessageBubble.bubbles. apply Forall_fmap_ext_1.
    eapply Forall_impl; [exact Hd|]. intros m Hm. cbn beta in *.
    unfold MessageBubble.renderContent. rewrite Hm. by rewrite andb_false_r.
  - intros text p [m [Hr _]]%list_elem_of_fmap.
    unfold MessageBubble.renderContent in Hr.
    by destruct (truthy (isError m)), (truthy (isWaiting m)).
  - unfold MessageBubble.bubbles, MessageBubble.displayMessages.
    rewrite length_fmap. destruct ms; cbn; lia.
  - by intros ->.
Qed.

End Properties.

(** * The history client *)

Lemma request_headers {D : Type} (stringify : D → string)
    (AGENT_SERVER_BASE_URL : option string) endpoint m session data url config :
  ApiClient.request stringify AGENT_SERVER_BASE_URL endpoint m session data
  = ApiClient.Resolved (url, config) →
  ∃ b uid, AGENT_SERVER_BASE_URL = Some b ∧ truthy_string b = true
           ∧ ApiClient.userId session = Some uid ∧ truthy_string uid = true
           ∧ url = b +:+ endpoint
           ∧ ApiClient.method config = m
           ∧ ApiClient.headers config !! "X-User-Id" = Some uid
           ∧ ApiClient.headers config !! "Content-Type" = Some "application/json".
Proof.
  unfold ApiClient.request.
  destruct AGENT_SERVER_BASE_URL as [b|]; [|done]. cbn.
  destruct (truthy_string b) eqn:Hb; [|done]. cbn.
  destruct (ApiClient.userId session) as [uid|]; [|done]. cbn.
  destruct (truthy_string uid) eqn:Hu; [|done]. cbn -[list_to_map].
  intros [= <- <-]. exists b, uid. cbn -[list_to_map]. by repeat split.
Qed.

Section HistoryClient.

Context {T D : Type}.
Variable stringify : D → string.
Variable AGENT_SERVER_BASE_URL : option string.
Variable fetch :
  string → ApiClient.RequestInit → ApiClient.Outcome (ApiClient.Response T).
Variable fetchConversation :
  string → ApiClient.RequestInit
  → ApiClient.Outcome (ApiClient.Response ApiClient.Conversation).
Variable fetchHistory :
  string → ApiClient.RequestInit
  → ApiClient.Outcome (ApiClient.Response (list Sidebar.ConversationHistory)).




End HistoryClient.

(** * The sidebar and the storage hooks *)

Section SidebarQuery.

Variable AGENT_SERVER_BASE_URL : option string.
Variable fetch :
  string → ApiClient.RequestInit
  → ApiClient.Outcome (ApiClient.Response (list Sidebar.ConversationHistory)).

(** X14. The history query of the sidebar resolves to the empty list
    without a session.  With a session that carries no user id it is
    rejected whatever [fetch] would answer, so no history of an
    undefined user is ever requested.  Whenever it resolves with a session,
    the value is the body of a successful response to a GET without body of
    the base endpoint followed by [/history/] and the user id, whose
    [X-User-Id] header names the same user. *)
Theorem history_query_path_and_header_agree session :
  let query := Sidebar.queryFn AGENT_SERVER_BASE_URL fetch session in
  (session = None → query = ApiClient.Resolved [])
  ∧ (is_Some session → truthy_ostring (ApiClient.userId session) = false →
     ∃ e, ∀ fetch',
       Sidebar.queryFn AGENT_SERVER_BASE_URL fetch' session = ApiClient.Rejected e)
  ∧ (∀ v, is_Some session → query = ApiClient.Resolved v →
     ∃ b uid config r,
       AGENT_SERVER_BASE_URL = Some b ∧ ApiClient.userId session = Some uid
       ∧ fetch (b +:+ "/history/" +:+ uid) config = ApiClient.Resolved r
       ∧ ApiClient.ok r = true ∧ ApiClient.json r = ApiClient.Resolved v
       ∧ ApiClient.method config = ApiClient.GET
       ∧ ApiClient.body config = None
       ∧ ApiClient.headers config !! "X-User-Id" = Some uid).
Proof.
  cbn zeta. split; [by intros ->|]. split.
  - intros [x ->] Hu. unfold Sidebar.queryFn.
    destruct (ApiClient.user x) as [u|] eqn:Hx; [|by eexists].
    unfold ApiClient.apiClient, ApiClient.request.
    destruct (negb (truthy_ostring AGENT_SERVER_BASE_URL)); [by eexists|].
    rewrite Hu. by eexists.
  - intros v [x ->]. unfold Sidebar.queryFn.
    destruct (ApiClient.user x) as [u|] eqn:Hx; [|done].
    unfold ApiClient.apiClient.
    destruct (ApiClient.request _ _ _ _ _ _) as [[url config]|e] eqn:Hreq; [|done].
    destruct (request_headers _ _ _ _ _ _ _ _ Hreq)
      as (b & uid & Hb & _ & Hu & _ & -> & Hm & Hh & _).
    assert (ApiClient.body config = None) as Hbody.
    { unfold ApiClient.request in Hreq.
      destruct (negb (truthy_ostring AGENT_SERVER_BASE_URL)); [done|].
      destruct (negb (truthy_ostring (ApiClient.userId (Some x)))); [done|].
      by injection Hreq as _ <-. }
    assert (ApiClient.id u = Some uid) as Hid.
    { cbn in Hu. by rewrite Hx in Hu. }
    rewrite Hid. cbn [default].
    destruct (fetch _ config) as [r|] eqn:Hf; [|done].
    destruct (ApiClient.ok r) eqn:Hok; [|done]. cbn. intros Hj.
    by exists b, uid, config, r.
Qed.

End SidebarQuery.

(** X15. Two threads share their draft key, and their scroll-position key,
    exactly when they are the same thread up to this: no thread, the empty
    id and the id [new] all use the key of a new chat.  A draft key is never
    a scroll-position key. *)
Theorem draft_and_scroll_keys t1 t2 :
  (LocalStorage.draftKey t1 = LocalStorage.draftKey t2
   ↔ LocalStorage.keyThread t1 = LocalStorage.keyThread t2)
  ∧ (LocalStorage.scrollPositionKey t1 = LocalStorage.scrollPositionKey t2
     ↔ LocalStorage.keyThread t1 = LocalStorage.keyThread t2)
  ∧ LocalStorage.draftKey t1 ≠ LocalStorage.scrollPositionKey t2
  ∧ (LocalStorage.keyThread t1 = "new"
     ↔ t1 = None ∨ t1 = Some "" ∨ t1 = Some "new").
Proof.
  assert (∀ t, LocalStorage.draftKey t = "draft-" +:+ LocalStorage.keyThread t) as Hd.
  { intros t. unfold LocalStorage.draftKey, LocalStorage.keyThread.
    by destruct (truthy_ostring t). }
  assert (∀ t, LocalStorage.scrollPositionKey t
               = "scroll-pos-" +:+ LocalStorage.keyThread t) as Hs.
  { intros t. unfold LocalStorage.scrollPositionKey, LocalStorage.keyThread.
    by destruct (truthy_ostring t). }
  rewrite !Hd, !Hs. split_and!.
  - split; [|by intros ->]. intros H. exact (String.app_inj _ _ _ H).
  - split; [|by intros ->]. intros H. exact (String.app_inj _ _ _ H).
  - by destruct (LocalStorage.keyThread t1), (LocalStorage.keyThread t2).
  - unfold LocalStorage.keyThread. destruct t1 as [[|a t]|]; cbn.
    + naive_solver.
    + split; [intros H; right; right; by f_equal|].
      intros [?|[?|?]]; by simplify_eq.
    + naive_solver.
Qed.

Lemma trySetItem_other {A} (str : A → option string) acc
    (st : gmap string string) key (x : A) k :
  k ≠ key → LocalStorage.trySetItem str acc st key x !! k = st !! k.
Proof.
  intros Hne. unfold LocalStorage.trySetItem, LocalStorage.setItem.
  destruct (str x) as [t|]; [|done].
  destruct (acc st key t); [|done]. cbn. by rewrite lookup_insert_ne.
Qed.

Lemma trySetItem_accepted {A} (str : A → option string) acc
    (st : gmap string string) key (x : A) t :
  str x = Some t → acc st key t = true →
  LocalStorage.trySetItem str acc st key x = <[key := t]> st.
Proof.
  intros Hx Ha. unfold LocalStorage.trySetItem, LocalStorage.setItem.
  by rewrite Hx, Ha.
Qed.

Lemma trySetItem_refused {A} (str : A → option string) acc
    (st : gmap string string) key (x : A) :
  (∀ t, str x = Some t → acc st key t = false) →
  LocalStorage.trySetItem str acc st key x = st.
Proof.
  intros Hx. unfold LocalStorage.trySetItem, LocalStorage.setItem.
  destruct (str x) as [t|]; [|done]. by rewrite (Hx t).
Qed.

Lemma initialValue_stored {A} (prs : string → option A)
    (st : gmap string string) key t (d init : A) :
  st !! key = Some t → truthy_string t = true → prs t = Some d →
  LocalStorage.initialValue prs st key init = d.
Proof.
  intros Hk Ht Hp. unfold LocalStorage.initialValue. by rewrite Hk, Ht, Hp.
Qed.

(** X16. [useLocalState] follows the updates whatever the storage does:
    after mounting and any number of updates the state is the last value
    set (or the one read at mount), and no other key has changed.  On a
    storage that takes every write, with an encoder that never throws and
    whose text is not empty and parses back to the value, the key holds the
    encoded state and mounting again on that storage gives the same state
    and storage, whatever initial state is passed.  On a storage that
    refuses every write the storage is as it was found. *)
Theorem local_state_is_mirrored {T : Type} (stringify : T → option string)
    (parse : string → option T) accepts st key init vs :
  let h := foldl (LocalStorage.setLocalState stringify accepts key)
             (LocalStorage.mountLocalState stringify parse accepts st key init) vs in
  h.1 = default (LocalStorage.initialValue parse st key init) (last vs)
  ∧ (∀ k, k ≠ key → h.2 !! k = st !! k)
  ∧ ((∀ m k v, accepts m k v = true) →
     (∀ d, ∃ t, stringify d = Some t ∧ truthy_string t = true ∧ parse t = Some d) →
     h.2 !! key = stringify h.1
     ∧ ∀ init',
         LocalStorage.mountLocalState stringify parse accepts h.2 key init' = h)
  ∧ ((∀ m k v, accepts m k v = false) → h.2 = st).
Proof.
  cbn zeta.
  set (h0 := LocalStorage.mountLocalState stringify parse accepts st key init).
  assert (∀ (h : T * gmap string string),
            (∀ m k v, accepts m k v = true) →
            (∀ d, ∃ t, stringify d = Some t ∧ truthy_string t = true
                       ∧ parse t = Some d) →
            h.2 !! key = stringify h.1 →
            ∀ init',
              LocalStorage.mountLocalState stringify parse accepts h.2 key init' = h)
    as Hre.
  { intros [x m] Ha He Hk init'. cbn [fst snd] in *.
    destruct (He x) as (t & Hx & Ht & Hp). rewrite Hx in Hk.
    unfold LocalStorage.mountLocalState.
    rewrite (initialValue_stored parse m key t x init' Hk Ht Hp).
    rewrite (trySetItem_accepted _ _ _ _ _ t Hx (Ha _ _ _)).
    by rewrite insert_id. }
  assert (∀ m x, (∀ m k v, accepts m k v = true) →
            (∀ d, ∃ t, stringify d = Some t ∧ truthy_string t = true
                       ∧ parse t = Some d) →
            LocalStorage.trySetItem stringify accepts m key x !! key = stringify x)
    as Hw.
  { intros m x Ha He. destruct (He x) as (t & Hx & _ & _).
    rewrite (trySetItem_accepted _ _ _ _ _ t Hx (Ha _ _ _)), Hx.
    by rewrite lookup_insert_eq. }
  induction vs as [|v vs IH] using rev_ind.
  - cbn [foldl last default]. unfold h0, LocalStorage.mountLocalState.
    cbn [fst snd]. split_and!.
    + done.
    + intros k Hne. by apply trySetItem_other.
    + intros Ha He. split; [by apply Hw|].
      intros init'. apply (Hre (_, _)); [done..|]. by apply Hw.
    + intros Hr. apply trySetItem_refused. auto.
  - rewrite foldl_snoc, last_snoc. destruct IH as (_ & Hother & _ & Hfull).
    set (h := foldl _ h0 vs) in *.
    unfold LocalStorage.setLocalState. cbn [fst snd default]. split_and!.
    + done.
    + intros k Hne. by rewrite trySetItem_other, Hother.
    + intros Ha He. split; [by apply Hw|].
      intros init'. apply (Hre (_, _)); [done..|]. by apply Hw.
    + intros Hr. rewrite trySetItem_refused by auto. by apply Hfull.
Qed.

(** X17. [useDraft] saves on the way out.  After mounting on a thread and
    any run of edits and thread switches, whatever the storage does, the
    draft on screen is the last one set, or the one read at mount (a switch
    to another thread does not load the draft stored for it), and no key but
    the draft keys of the threads visited has changed at unmount.  When the
    write at unmount is taken, and its text is not empty and parses back to
    the draft, mounting again on the last thread gives back the draft; when
    that write throws, nothing is saved: the storage is left as it was
    before the unmount. *)
Theorem draft_survives_remount (stringify : string → option string)
    (parse : string → option string) accepts st thread es :
  let h := foldl (LocalStorage.draftStep stringify accepts)
             (LocalStorage.mountDraft parse st thread) es in
  let st' := LocalStorage.unmountDraft stringify accepts h in
  let key := LocalStorage.draftKey (LocalStorage.threadId h) in
  LocalStorage.threadId h = default thread (last (switchedThreads es))
  ∧ LocalStorage.draft h
    = default (LocalStorage.initialValue parse st (LocalStorage.draftKey thread) "")
        (last (setDrafts es))
  ∧ (∀ k, k ∉ LocalStorage.draftKey <$> (thread :: switchedThreads es) →
       st' !! k = st !! k)
  ∧ (∀ t, stringify (LocalStorage.draft h) = Some t →
       accepts (LocalStorage.storage h) key t = true →
       truthy_string t = true → parse t = Some (LocalStorage.draft h) →
       st' = <[key := t]> (LocalStorage.storage h)
       ∧ LocalStorage.draft (LocalStorage.mountDraft parse st' (LocalStorage.threadId h))
         = LocalStorage.draft h)
  ∧ ((∀ t, stringify (LocalStorage.draft h) = Some t →
        accepts (LocalStorage.storage h) key t = false) →
     st' = LocalStorage.storage h).
Proof.
  cbn zeta.
  set (h0 := LocalStorage.mountDraft parse st thread).
  split_and!.
  - induction es as [|e es IH] using rev_ind; [done|].
    rewrite foldl_snoc. unfold switchedThreads in *. rewrite omap_app.
    destruct e as [v|t]; cbn.
    + rewrite app_nil_r, <- IH. by case_bool_decide.
    + rewrite last_snoc. by case_bool_decide.
  - induction es as [|e es IH] using rev_ind; [done|].
    rewrite foldl_snoc. unfold setDrafts in *. rewrite omap_app.
    destruct e as [v|t]; cbn.
    + rewrite last_snoc. by case_bool_decide.
    + rewrite app_nil_r, <- IH. by case_bool_decide.
  - assert (∀ k, k ∉ LocalStorage.draftKey <$> (thread :: switchedThreads es) →
              LocalStorage.storage
                (foldl (LocalStorage.draftStep stringify accepts) h0 es) !! k
              = st !! k
              ∧ k ≠ LocalStorage.draftKey
                      (LocalStorage.threadId
                         (foldl (LocalStorage.draftStep stringify accepts) h0 es)))
      as Hinv.
    { induction es as [|e es IH] using rev_ind.
      - intros k Hk. cbn in *. split; [done|].
        intros ->. apply Hk. by left.
      - intros k Hk. rewrite foldl_snoc. unfold switchedThreads in *.
        rewrite omap_app in Hk.
        destruct e as [v|t]; cbn in Hk |- *.
        + rewrite app_nil_r in Hk. destruct (IH k Hk) as [Hs Hne].
          case_bool_decide; [done|]. cbn. split; [|done].
          unfold LocalStorage.saveDraft. by rewrite trySetItem_other.
        + rewrite fmap_app, not_elem_of_cons, not_elem_of_app in Hk.
          destruct Hk as (Hk0 & Hk1 & Hk2).
          destruct (IH k) as [Hs Hne].
          { by rewrite fmap_cons, not_elem_of_cons. }
          assert (k ≠ LocalStorage.draftKey t).
          { intros ->. apply Hk2. by left. }
          case_bool_decide; cbn; (split; [|done]); [done|].
          unfold LocalStorage.saveDraft. by rewrite trySetItem_other. }
    intros k Hk. destruct (Hinv k Hk) as [Hs Hne].
    unfold LocalStorage.unmountDraft, LocalStorage.saveDraft.
    by rewrite trySetItem_other.
  - intros t Hx Ha Ht Hp.
    unfold LocalStorage.unmountDraft, LocalStorage.saveDraft.
    rewrite (trySetItem_accepted _ _ _ _ _ t Hx Ha). split; [done|].
    unfold LocalStorage.mountDraft. cbn [LocalStorage.draft].
    apply (initialValue_stored parse _ _ t); [|done..].
    by rewrite lookup_insert_eq.
  - intros Hr. unfold LocalStorage.unmountDraft, LocalStorage.saveDraft.
    by apply trySetItem_refused.
Qed.


(** * Closed instances *)

(** C6 at a timeline holding one waiting message of Layla: an output of
    Nova changes nothing. *)
Lemma agent_output_without_waiting_is_dropped_witness :
  let s := run sampleClock sampleRandom initialState
             [Message (Some (TaskDelegatedEvent "Layla" "survey"))] in
  length (messages s) = 1
  ∧ messages (step sampleClock sampleRandom s
                (Message (Some (AgentOutputEvent "Nova" "done"))))
    = messages s.
Proof.
  split; [reflexivity|].
  apply (agent_output_without_waiting_is_dropped sampleClock sampleRandom).
  vm_compute. repeat constructor. intros [H _]. discriminate H.
Defined.

(** C2 as stated fails: with two waiting messages of Layla, one
    [agent_output] for Layla rewrites both, the earlier one too. *)
Lemma agent_output_rewrites_earlier_waiting_message :
  let s := run sampleClock sampleRandom initialState
             [Message (Some (TaskDelegatedEvent "Layla" "survey"));
              Message (Some (TaskDelegatedEvent "Layla" "summary"))] in
  let s' := step sampleClock sampleRandom s
              (Message (Some (AgentOutputEvent "Layla" "done"))) in
  agent <$> messages s = [Some "Layla"; Some "Layla"]
  ∧ messageState <$> messages s = [st_waiting; st_waiting]
  ∧ content <$> messages s = [""; ""]
  ∧ messageState <$> messages s' = [st_final; st_final]
  ∧ content <$> messages s' = ["done"; "done"].
Proof. vm_compute. repeat split. Qed.

(** C3 as stated fails: the start of "Eleanor" opens no message, and the
    scenario ends with the empty timeline. *)
Lemma agent_start_eleanor_leaves_timeline_empty :
  messages (run sampleClock sampleRandom initialState
              [Message (Some (AgentStartEvent "Eleanor" "started"));
               Message (Some (AgentOutputEvent "Eleanor" "plan ready"))]) = [].
Proof. by vm_compute. Qed.

(** C4 as stated fails: two [task_delegated] events to Layla, or two
    [agent_start] events of the simplifier, leave two waiting messages of one
    agent; the second start was accepted while the first was still waiting. *)
Lemma second_start_opens_second_waiting_message :
  let s := run sampleClock sampleRandom initialState
             [Message (Some (TaskDelegatedEvent "Layla" "survey"));
              Message (Some (TaskDelegatedEvent "Layla" "summary"))] in
  let s' := run sampleClock sampleRandom initialState
              [Message (Some (AgentStartEvent "Simplifier Agent" "started"));
               Message (Some (AgentStartEvent "Simplifier Agent" "started"))] in
  agent <$> messages s = [Some "Layla"; Some "Layla"]
  ∧ messageState <$> messages s = [st_waiting; st_waiting]
  ∧ activeCount "Layla" (messages s) = 2
  ∧ agent <$> messages s' = [Some "Nova"; Some "Nova"]
  ∧ messageState <$> messages s' = [st_waiting; st_waiting]
  ∧ activeCount "Nova" (messages s') = 2.
Proof. vm_compute. repeat split. Qed.

(** C10 as stated fails at the empty prompt on a closed channel: the user
    message is appended and a connection is started, but when it opens
    nothing is sent. *)
Lemma empty_prompt_is_never_transmitted :
  let s := run sampleClock sampleRandom initialState [Send ""; Open 0] in
  content <$> messages s = [""]
  ∧ isUser <$> messages s = [true]
  ∧ sockets s = [mkWebSocket OPEN (Some "") []].
Proof. vm_compute. repeat split. Qed.


(** X1 on a delegated task and its output, with the sample clock. *)
Lemma start_time_not_after_end_time_witness :
  ∃ m a b,
    messages (run sampleClock sampleRandom initialState
                [Message (Some (TaskDelegatedEvent "Layla" "survey"));
                 Message (Some (AgentOutputEvent "Layla" "done"))]) = [m]
    ∧ startTime m = Some a ∧ endTime m = Some b ∧ (a ≤ b)%Z.
Proof.
  eexists _, _, _. split; [vm_compute; reflexivity|].
  split; [reflexivity|]. split; [reflexivity|].
  eapply (start_time_not_after_end_time sampleClock sampleRandom
            [Message (Some (TaskDelegatedEvent "Layla" "survey"));
             Message (Some (AgentOutputEvent "Layla" "done"))]).
  - intros n n' Hle. unfold sampleClock. lia.
  - vm_compute. left.
  - reflexivity.
  - reflexivity.
Defined.

(** X2 on three pushes, with the sample random source. *)
Lemma timeline_ids_unique_witness :
  length (messages (run sampleClock sampleRandom initialState
            [Send "hello";
             Message (Some (TaskDelegatedEvent "Layla" "survey"));
             Message (Some (ErrorEvent tag_error "overloaded"))])) = 3
  ∧ NoDup (id <$> messages (run sampleClock sampleRandom initialState
            [Send "hello";
             Message (Some (TaskDelegatedEvent "Layla" "survey"));
             Message (Some (ErrorEvent tag_error "overloaded"))])).
Proof.
  split; [reflexivity|].
  apply (timeline_ids_unique sampleClock sampleRandom). intros n. reflexivity.
Defined.

(** X5 on a streaming timeline with a queue: three ignored frames in a row. *)
Lemma silent_frames_change_only_the_log_witness :
  let s := run sampleClock sampleRandom initialState
             [Message (Some (UnclassifiedEvent (Some "Hel")))] in
  let s' := run sampleClock sampleRandom s
              [Message None; Message (Some (LoopRetryEvent "again"));
               Message (Some (ValidationScoreEvent "Isaac" 7))] in
  messages s' = messages s ∧ streamQueue s' = "Hel" ∧ typingRef s' = true
  ∧ forwarded s' = forwarded s ++ [LoopRetryEvent "again";
                                    ValidationScoreEvent "Isaac" 7].
Proof.
  cbn zeta.
  rewrite (silent_frames_change_only_the_log sampleClock sampleRandom).
  - vm_compute. repeat split.
  - repeat constructor.
Defined.

(** X7 after a fragment followed by a delegation: the three characters are
    consumed and the streaming message stays empty. *)
Lemma ticks_discard_without_streaming_message_witness :
  let s := run sampleClock sampleRandom initialState
             [Message (Some (UnclassifiedEvent (Some "Hel")));
              Message (Some (TaskDelegatedEvent "Layla" "survey"))] in
  streamQueue s = "Hel"
  ∧ content <$> messages (ticks 3 s) = [""; ""]
  ∧ messages (ticks 3 s) = messages s
  ∧ String.length (streamQueue (ticks 3 s)) = String.length (streamQueue s) - 3.
Proof.
  cbn zeta. split; [reflexivity|]. split; [reflexivity|].
  apply (ticks_discard_without_streaming_message 3).
  vm_compute. by intros m [= <-].
Defined.

(** X8 after two fragments, two ticks in. *)
Lemma ticks_conserve_streamed_text_witness :
  let s := run sampleClock sampleRandom initialState
             [Message (Some (UnclassifiedEvent (Some "Hel")));
              Message (Some (UnclassifiedEvent (Some "lo")))] in
  ∃ m m', messages s = [m] ∧ messages (ticks 2 s) = [m']
          ∧ content m' +:+ streamQueue (ticks 2 s) = "Hello".
Proof.
  cbn zeta. eexists.
  edestruct (ticks_conserve_streamed_text 2
               (run sampleClock sampleRandom initialState
                  [Message (Some (UnclassifiedEvent (Some "Hel")));
                   Message (Some (UnclassifiedEvent (Some "lo")))]) [])
    as (m' & H1 & H2 & _).
  - vm_compute. reflexivity.
  - reflexivity.
  - exists m'. split; [reflexivity|]. split; [exact H1|]. exact H2.
Defined.

(** X10 right after the first send. *)
Lemma connecting_status_has_connecting_socket_witness :
  status (run sampleClock sampleRandom initialState [Send "hello"]) = connecting
  ∧ ∃ k w, wsRef (run sampleClock sampleRandom initialState [Send "hello"]) = Some k
           ∧ sockets (run sampleClock sampleRandom initialState [Send "hello"]) !! k
             = Some w
           ∧ readyState w = CONNECTING.
Proof.
  split; [reflexivity|].
  apply (connecting_status_has_connecting_socket sampleClock sampleRandom).
  reflexivity.
Defined.

(** X11 on a conversation whose channel fails and closes while text is still
    being revealed. *)
Lemma transport_events_leave_the_conversation_witness :
  let s := run sampleClock sampleRandom initialState
             [Send "hello"; Open 0;
              Message (Some (UnclassifiedEvent (Some "Hel")))] in
  let s' := run sampleClock sampleRandom s [Failure 0; Close 0] in
  length (messages s) = 2 ∧ status s' = idle
  ∧ messages s' = messages s ∧ streamQueue s' = streamQueue s
  ∧ typingRef s' = typingRef s ∧ forwarded s' = forwarded s
  ∧ idCounter s' = idCounter s.
Proof.
  cbn zeta. split; [reflexivity|]. split; [reflexivity|].
  apply (transport_events_leave_the_conversation sampleClock sampleRandom).
  repeat constructor.
Defined.

(** X16 on a stored value and two updates: on a storage that takes every
    write the key follows the state, and on one whose quota is full the
    state still follows the updates while the storage stays as it was. *)
Lemma local_state_is_mirrored_witness :
  let st := <["panel" := String "034" "open"]> ∅ in
  let h := foldl (LocalStorage.setLocalState sampleStringify roomy "panel")
             (LocalStorage.mountLocalState sampleStringify sampleParse roomy
                st "panel" "closed")
             ["wide"; "narrow"] in
  let h' := foldl (LocalStorage.setLocalState sampleStringify full "panel")
              (LocalStorage.mountLocalState sampleStringify sampleParse full
                 st "panel" "closed")
              ["wide"; "narrow"] in
  (h.1 = "narrow" ∧ h.2 !! "panel" = sampleStringify h.1)
  ∧ (h'.1 = "narrow" ∧ h'.2 = st).
Proof.
  split.
  - destruct (local_state_is_mirrored sampleStringify sampleParse roomy
                (<["panel" := String "034" "open"]> ∅) "panel" "closed"
                ["wide"; "narrow"]) as (H1 & _ & H3 & _).
    split; [exact H1|]. apply H3.
    + reflexivity.
    + intros d. eexists. split; [reflexivity|]. split; reflexivity.
  - destruct (local_state_is_mirrored sampleStringify sampleParse full
                (<["panel" := String "034" "open"]> ∅) "panel" "closed"
                ["wide"; "narrow"]) as (H1 & _ & _ & H4).
    split; [exact H1|]. apply H4. reflexivity.
Defined.

(** X17 on an edit in a new chat followed by a switch to thread [t1]: on a
    storage that takes every write the draft comes back after unmounting
    and mounting again, and on one whose quota is full the unmount saves
    nothing. *)
Lemma draft_survives_remount_witness :
  let es := [LocalStorage.SetDraft "hello"; LocalStorage.SwitchThread (Some "t1")] in
  let h := foldl (LocalStorage.draftStep sampleStringify roomy)
             (LocalStorage.mountDraft sampleParse ∅ None) es in
  let st' := LocalStorage.unmountDraft sampleStringify roomy h in
  let h' := foldl (LocalStorage.draftStep sampleStringify full)
              (LocalStorage.mountDraft sampleParse ∅ None) es in
  (LocalStorage.threadId h = Some "t1" ∧ LocalStorage.draft h = "hello"
   ∧ LocalStorage.draft
       (LocalStorage.mountDraft sampleParse st' (LocalStorage.threadId h))
     = LocalStorage.draft h)
  ∧ (LocalStorage.draft h' = "hello"
     ∧ LocalStorage.unmountDraft sampleStringify full h' = LocalStorage.storage h').
Proof.
  split.
  - destruct (draft_survives_remount sampleStringify sampleParse roomy ∅ None
                [LocalStorage.SetDraft "hello";
                 LocalStorage.SwitchThread (Some "t1")])
      as (H1 & H2 & _ & H4 & _).
    split; [exact H1|]. split; [exact H2|].
    eapply H4.
    + reflexivity.
    + reflexivity.
    + reflexivity.
    + rewrite H2. reflexivity.
  - destruct (draft_survives_remount sampleStringify sampleParse full ∅ None
                [LocalStorage.SetDraft "hello";
                 LocalStorage.SwitchThread (Some "t1")])
      as (_ & H2 & _ & _ & H5).
    split; [exact H2|]. apply H5. reflexivity.
Defined.
